(** * Cost estimator of the shared workflows: a shallow embedding

    This development embeds [estimate-cost.js] (the CDK cost estimator) and
    proves properties of its pricing cache, its filter resolution, its
    per-resource cost rows and the totals it reports; it also embeds the
    diff script [cdk-diff.ts].

    Modelling conventions.
    - JavaScript strings are [string]; [null] and [undefined] are [None].
      Truthiness of an optional string is [truthy]: [None] and the empty
      string are falsy.
    - JavaScript numbers are exact rationals ([Qc]); rounding, NaN and the
      infinities are outside the model.  A number is truthy when it is not
      zero.
    - The parsed inputs are typed records.
    - The pricing service, [parseFloat], [localeCompare],
      [toLocaleString] and the region argument belong to the environment
      of a run, the record [Env].  The service may answer differently on
      every call: its answer depends on the number of calls already made.
    - The resource map is the list of its properties in the order of
      [Object.keys], [ResourceMap]: each is a rule or a value that is not a
      rule, as the array of [_free] and the text of a comment are; the
      array of [_free] is held apart.  No two properties have the same
      key.
    - A property lookup [resourceMap[type]] or [REGION_NAMES[region]]
      finds the property of the object itself, and else what every object
      inherits from [Object.prototype] under that name: a function or, for
      [__proto__], the prototype.  The message of a [TypeError] and the
      text of an inherited value are those of the engine and belong to the
      environment.
    - An exception thrown in [main] ends its loops: it is kept in the
      variables of the run, [thrown], and no later turn is run.
    - [Array.prototype.sort] is stable, and is modelled by a stable
      insertion sort.
    - [console.error] logging is not modelled. *)

From Stdlib Require Import Ascii String QArith Qcanon Qcabs.
From stdpp Require Import base strings list sorting gmap numbers pretty.

(** ** Strings *)

Definition nl : string := String (ascii_of_nat 10) EmptyString.
Definition dquote : string := String (ascii_of_nat 34) EmptyString.

(** Truthiness of an optional string: [null], [undefined] and the empty
    string are falsy. *)
Definition truthy (o : option string) : bool :=
  match o with
  | Some s => negb (bool_decide (s = EmptyString))
  | None => false
  end.

(** [a || b] on optional strings. *)
Definition orElse (o : option string) (d : string) : string :=
  match o with
  | Some s => if bool_decide (s = EmptyString) then d else s
  | None => d
  end.

Definition startsWith (s p : string) : bool := String.prefix p s.

(** [t.split('::')]: the separator is matched from left to right. *)
Fixpoint split_colons (s : string) (cur : string) : list string :=
  match s with
  | EmptyString => [cur]
  | String ":" (String ":" rest) => cur :: split_colons rest EmptyString
  | String c rest => split_colons rest (cur +:+ String c EmptyString)
  end.

Definition shortType (t : string) : string :=
  List.last (split_colons t EmptyString) EmptyString.

Definition in_range (lo hi : nat) (c : ascii) : bool :=
  (lo <=? nat_of_ascii c)%nat && (nat_of_ascii c <=? hi)%nat.

Definition is_lower (c : ascii) : bool := in_range 97 122 c.
Definition is_upper (c : ascii) : bool := in_range 65 90 c.
Definition is_hex (c : ascii) : bool :=
  in_range 48 57 c || in_range 65 70 c || in_range 97 102 c.

(** [.replace(/[A-F0-9]{8}$/i, '')] *)
Definition stripHashSuffix (s : string) : string :=
  let cs := list_ascii_of_string s in
  let n := length cs in
  if (8 <=? n)%nat && forallb is_hex (drop (n - 8) cs)
  then string_of_list_ascii (take (n - 8) cs)
  else s.

(** [.replace(/([a-z])([A-Z])/g, '$1 $2')] *)
Fixpoint spaceCamelCase (s : string) : string :=
  match s with
  | String a rest =>
      match rest with
      | String b _ =>
          if is_lower a && is_upper b
          then String a (String " " (spaceCamelCase rest))
          else String a (spaceCamelCase rest)
      | EmptyString => s
      end
  | EmptyString => s
  end.

Definition cleanId (id : string) : string := spaceCamelCase (stripHashSuffix id).

Fixpoint join (sep : string) (l : list string) : string :=
  match l with
  | [] => EmptyString
  | [s] => s
  | s :: l' => s +:+ sep +:+ join sep l'
  end.

(** ** JSON.stringify of strings *)

Definition hex_digit (n : nat) : ascii :=
  if (n <? 10)%nat then ascii_of_nat (48 + n) else ascii_of_nat (87 + n).

Definition json_escape (c : ascii) : string :=
  let n := nat_of_ascii c in
  if (n =? 34)%nat then "\" +:+ dquote
  else if (n =? 92)%nat then "\\"
  else if (n =? 8)%nat then "\b"
  else if (n =? 9)%nat then "\t"
  else if (n =? 10)%nat then "\n"
  else if (n =? 12)%nat then "\f"
  else if (n =? 13)%nat then "\r"
  else if (n <? 32)%nat
       then "\u00" +:+ String (hex_digit (n / 16)) (String (hex_digit (n mod 16)) EmptyString)
  else String c EmptyString.

Fixpoint json_escape_all (s : string) : string :=
  match s with
  | EmptyString => EmptyString
  | String c rest => json_escape c +:+ json_escape_all rest
  end.

Definition json_string (s : string) : string := dquote +:+ json_escape_all s +:+ dquote.

(** ** Region code to Pricing API location name *)

Definition REGION_NAMES : list (string * string) :=
  [ ("us-east-1", "US East (N. Virginia)");
    ("us-east-2", "US East (Ohio)");
    ("us-west-1", "US West (N. California)");
    ("us-west-2", "US West (Oregon)");
    ("af-south-1", "Africa (Cape Town)");
    ("ap-east-1", "Asia Pacific (Hong Kong)");
    ("ap-south-1", "Asia Pacific (Mumbai)");
    ("ap-south-2", "Asia Pacific (Hyderabad)");
    ("ap-southeast-1", "Asia Pacific (Singapore)");
    ("ap-southeast-2", "Asia Pacific (Sydney)");
    ("ap-southeast-3", "Asia Pacific (Jakarta)");
    ("ap-northeast-1", "Asia Pacific (Tokyo)");
    ("ap-northeast-2", "Asia Pacific (Seoul)");
    ("ap-northeast-3", "Asia Pacific (Osaka)");
    ("ca-central-1", "Canada (Central)");
    ("eu-central-1", "EU (Frankfurt)");
    ("eu-central-2", "EU (Zurich)");
    ("eu-west-1", "EU (Ireland)");
    ("eu-west-2", "EU (London)");
    ("eu-west-3", "EU (Paris)");
    ("eu-south-1", "EU (Milan)");
    ("eu-south-2", "EU (Spain)");
    ("eu-north-1", "EU (Stockholm)");
    ("il-central-1", "Israel (Tel Aviv)");
    ("me-south-1", "Middle East (Bahrain)");
    ("me-central-1", "Middle East (UAE)");
    ("sa-east-1", "South America (Sao Paulo)") ].

(** The property that an object, kept as an association list, has of its
    own under a key; what an object inherits is told by [inherited]. *)
Fixpoint prop_lookup {A} (obj : list (string * A)) (key : string) : option A :=
  match obj with
  | [] => None
  | (k, v) :: obj' => if bool_decide (k = key) then Some v else prop_lookup obj' key
  end.

(** The names of the properties that every object inherits from
    [Object.prototype]. *)
Definition inheritedNames : list string :=
  [ "constructor"; "hasOwnProperty"; "isPrototypeOf"; "propertyIsEnumerable";
    "toLocaleString"; "toString"; "valueOf"; "__proto__";
    "__defineGetter__"; "__defineSetter__"; "__lookupGetter__"; "__lookupSetter__" ].

Definition inherited (key : string) : bool := bool_decide (key ∈ inheritedNames).

(** A value that is a text, or the function or object that every object
    inherits under a name. *)
Inductive Found :=
  | Text (s : string)
  | Inherited (key : string).

(** ** Data model *)

(** One property change of the diff report; values were rendered by the
    diff step as strings or [null]. *)
Record PropertyChange := {
  name : string;
  impact : string;
  oldValue : option string;
  newValue : option string
}.

Record Resource := {
  logicalId : string;
  type : string;
  action : string;
  properties : option (list PropertyChange)
}.

Record Stack := {
  stackName : string;
  hasDiff : bool;
  resources : option (list Resource)
}.

Record DiffData := { stacks : option (list Stack) }.

(** The [Value] of a filter of the resource map. *)
Record ValueDef := {
  vd_default : option string;
  vd_cfProperty : option string
}.

Record FilterSpec := { Field : string; Value : ValueDef }.

(** One entry of the resource map. *)
Record Mapping := {
  serviceCode : string;
  m_unit : string;
  monthlyHours : option Qc;
  monthlyQuantity : option Qc;
  filters : list FilterSpec;
  note : option string
}.

(** The value of a property of the resource map: a rule, or a value that
    is not a rule and not [null], as an array, a text, a number.  Such a
    value has none of the properties of a rule; it is truthy or not. *)
Inductive Member :=
  | Rule (mapping : Mapping)
  | NotRule (isTruthy : bool).

Record ResourceMap := {
  (** [resourceMap._free], an array when the map has it *)
  _free : option (list string);
  (** The properties of the map in the order of [Object.keys], [_free]
      among them when the map has it. *)
  members : list (string * Member)
}.

(** The rules of the resource map, in the order of their keys. *)
Definition entries (resourceMap : ResourceMap) : list (string * Mapping) :=
  omap (λ kv, match kv.2 with
              | Rule mapping => Some (kv.1, mapping)
              | NotRule _ => None
              end) (members resourceMap).

(** [resourceMap[key]], for a key that is not the key of a rule, is
    truthy: it is a value of the map that is truthy or, when the map has no
    property of that key, an inherited value.  It has none of the
    properties of a rule. *)
Definition holdsOther (resourceMap : ResourceMap) (key : string) : bool :=
  match prop_lookup (members resourceMap) key with
  | Some (NotRule isTruthy) => isTruthy
  | Some (Rule _) => false
  | None => inherited key
  end.

(** A resolved filter [{ Field, Value }] of a pricing query. *)
Record Filter := { f_Field : string; f_Value : string }.

(** The entry kept in the price cache. *)
Record PriceEntry := { usd : Qc; pe_unit : string; description : string }.

(** The request sent to the pricing service. *)
Record TermMatch := { tm_Type : string; tm_Field : string; tm_Value : Found }.

Record GetProductsCommand := {
  ServiceCode : string;
  Filters : list TermMatch;
  MaxResults : nat
}.

(** The answer of the pricing service, with the first product of the price
    list already read by [JSON.parse]. *)
Record PriceDimension := {
  pricePerUnit_USD : option string;
  pd_unit : option string;
  pd_description : option string
}.

Record Offer := { priceDimensions : option (list (string * PriceDimension)) }.

Record Product := { OnDemand : option (list (string * Offer)) }.

Inductive PriceListItem :=
  | NotJson               (* [JSON.parse] throws *)
  | ProductJson (p : Product).

Inductive SendResult :=
  | SendThrows (message : string)
  | SendOk (PriceList : option (list PriceListItem)).

(** One row of the cost table. *)
Record Row := {
  r_stack : string;
  r_id : string;
  r_type : string;
  r_detail : string;
  r_action : string;
  before : option Qc;
  after : option Qc;
  delta : option Qc
}.

Global Instance PriceEntry_eq_dec : EqDecision PriceEntry.
Proof. solve_decision. Defined.

Global Instance Filter_eq_dec : EqDecision Filter.
Proof. solve_decision. Defined.

Global Instance Found_eq_dec : EqDecision Found.
Proof. solve_decision. Defined.

Global Instance TermMatch_eq_dec : EqDecision TermMatch.
Proof. solve_decision. Defined.

Global Instance GetProductsCommand_eq_dec : EqDecision GetProductsCommand.
Proof. solve_decision. Defined.

Global Instance Row_eq_dec : EqDecision Row.
Proof. solve_decision. Defined.

(** ** Filter resolution *)

Definition resolveFilterValue (valueDef : ValueDef)
    (properties : option (list PropertyChange)) (useNew : bool) : option string :=
  if truthy (vd_default valueDef) && negb (truthy (vd_cfProperty valueDef))
  then vd_default valueDef
  else
    match vd_cfProperty valueDef with
    | Some cf =>
        if bool_decide (cf = EmptyString) then None
        else
          let fallback := if truthy (vd_default valueDef) then vd_default valueDef else None in
          match List.find (fun p => bool_decide (name p = cf)) (default [] properties) with
          | Some prop =>
              let val := if useNew then newValue prop else oldValue prop in
              if truthy val
                 && negb (bool_decide (val = Some "null"))
                 && negb (bool_decide (val = Some "undefined"))
              then val
              else fallback
          | None => fallback
          end
    | None => None
    end.

Fixpoint buildFilters_loop (fs : list FilterSpec)
    (properties : option (list PropertyChange)) (useNew : bool) : list Filter :=
  match fs with
  | [] => []
  | filter :: fs' =>
      match resolveFilterValue (Value filter) properties useNew with
      | Some value =>
          if bool_decide (value = EmptyString)
          then buildFilters_loop fs' properties useNew
          else {| f_Field := Field filter; f_Value := value |}
               :: buildFilters_loop fs' properties useNew
      | None => buildFilters_loop fs' properties useNew
      end
  end.

Definition buildFilters (mapping : Mapping)
    (properties : option (list PropertyChange)) (useNew : bool) : list Filter :=
  buildFilters_loop (filters mapping) properties useNew.

(** ** Monthly cost *)

(** Truthiness of an optional number. *)
Definition truthyNum (o : option Qc) : bool :=
  match o with
  | Some q => negb (bool_decide (q = 0%Qc))
  | None => false
  end.

(** A number used as a condition: [Some] when it is truthy. *)
Definition whenTruthy (o : option Qc) : option Qc :=
  if truthyNum o then o else None.

Definition monthlyCost (unitPrice : Qc) (mapping : Mapping) : Qc :=
  match whenTruthy (monthlyHours mapping) with
  | Some h => (unitPrice * h)%Qc
  | None =>
      match whenTruthy (monthlyQuantity mapping) with
      | Some q => (unitPrice * q)%Qc
      | None => unitPrice
      end
  end.

(** [(x || 0)] on a cost that may be [null]. *)
Definition orZero (o : option Qc) : Qc :=
  match whenTruthy o with
  | Some q => q
  | None => 0%Qc
  end.

(** ** The price cache and the pricing service *)

(** What a run has done so far to its environment: the cache it owns and
    the requests it sent to the pricing service, oldest first. *)
Record World := {
  priceCache : gmap string (option PriceEntry);
  sent : list GetProductsCommand
}.

Definition newWorld : World := {| priceCache := ∅; sent := [] |}.

(** The variables of [main] together with the cache and the service. *)
Record Acc := {
  rows : list Row;
  totalDelta : Qc;
  pricedCount : nat;
  freeCount : nat;
  world : World;
  (** The message of the exception that ended the loops, if any. *)
  thrown : option string
}.

(** The outcome of reading an input with [JSON.parse]. *)
Inductive Parsed (A : Type) :=
  | ParseError (message : string)
  | ParseOk (a : A).

Arguments ParseError {A} message.
Arguments ParseOk {A} a.

(** The object printed on the standard output. *)
Record Output := { markdown : string; error : option string }.

(** How [main] ends. *)
Inductive Ended :=
  | Threw (message : string)
  | Printed (markdown : string).

(** The environment of one run of the script. *)
Record Env := {
  (** [a.localeCompare(b)] *)
  localeCompare : string → string → Z;
  (** [parseFloat]; [None] is NaN. *)
  parseFloat : string → option Qc;
  (** [n.toLocaleString('en-US', ...)] with exactly two fraction digits. *)
  toLocaleString : Qc → string;
  (** [pricing.send]: the answer to a request, given how many requests
      were sent before it. *)
  send : nat → GetProductsCommand → SendResult;
  (** The third command line argument. *)
  regionArg : option string;
  (** The message of the [TypeError] of a loop [for (... of x)] over an
      [x] that is undefined. *)
  notIterable : string;
  (** The text of the value that every object inherits under a name, as a
      template literal prints it. *)
  inheritedText : string → string
}.

Section Estimator.

Variable env : Env.

Definition region : string := orElse (regionArg env) "us-east-1".

(** [REGION_NAMES[region] || REGION_NAMES['us-east-1']]: a region code
    that is not in the table and is the name of an inherited property
    finds that property, which is truthy. *)
Definition locationName : Found :=
  let fallback := orElse (prop_lookup REGION_NAMES "us-east-1") EmptyString in
  match prop_lookup REGION_NAMES region with
  | Some name => Text (orElse (Some name) fallback)
  | None => if inherited region then Inherited region else Text fallback
  end.

(** [`${locationName}`] *)
Definition locationText : string :=
  match locationName with
  | Text name => name
  | Inherited key => inheritedText env key
  end.

(** [[...filters].sort((a, b) => a.Field.localeCompare(b.Field))]: the
    sort is stable. *)
Fixpoint sort_insert (f : Filter) (l : list Filter) : list Filter :=
  match l with
  | [] => [f]
  | g :: l' =>
      if (localeCompare env (f_Field f) (f_Field g) <=? 0)%Z
      then f :: l
      else g :: sort_insert f l'
  end.

Definition sortFilters (l : list Filter) : list Filter :=
  foldr sort_insert [] l.

Definition json_filter (f : Filter) : string :=
  "{" +:+ json_string "Field" +:+ ":" +:+ json_string (f_Field f) +:+ ","
      +:+ json_string "Value" +:+ ":" +:+ json_string (f_Value f) +:+ "}".

Definition cacheKey (serviceCode : string) (filters : list Filter) : string :=
  "{" +:+ json_string "serviceCode" +:+ ":" +:+ json_string serviceCode +:+ ","
      +:+ json_string "filters" +:+ ":["
      +:+ join "," (json_filter <$> sortFilters filters) +:+ "]}".

(** The price of one dimension, when it is a positive number. *)
Definition dimensionPrice (d : PriceDimension) : option PriceEntry :=
  match parseFloat env (orElse (pricePerUnit_USD d) "0") with
  | Some usd =>
      if bool_decide (0 < usd)%Qc
      then Some {| usd := usd;
                   pe_unit := orElse (pd_unit d) EmptyString;
                   description := orElse (pd_description d) EmptyString |}
      else None
  | None => None
  end.

Fixpoint scanDimensions (dims : list (string * PriceDimension)) : option PriceEntry :=
  match dims with
  | [] => None
  | (_, d) :: dims' =>
      match dimensionPrice d with
      | Some entry => Some entry
      | None => scanDimensions dims'
      end
  end.

Fixpoint scanOffers (onDemand : list (string * Offer)) : option PriceEntry :=
  match onDemand with
  | [] => None
  | (_, offer) :: onDemand' =>
      match priceDimensions offer with
      | Some dims =>
          match scanDimensions dims with
          | Some entry => Some entry
          | None => scanOffers onDemand'
          end
      | None => scanOffers onDemand'
      end
  end.

(** The body of [queryPrice] after the request: what is cached and
    returned for an answer of the service. *)
Definition quoteOf (resp : SendResult) : option PriceEntry :=
  match resp with
  | SendThrows _ => None
  | SendOk None | SendOk (Some []) => None
  | SendOk (Some (NotJson :: _)) => None
  | SendOk (Some (ProductJson product :: _)) =>
      match OnDemand product with
      | None => None
      | Some onDemand => scanOffers onDemand
      end
  end.

Definition allFilters (filters : list Filter) : list TermMatch :=
  ((λ f, {| tm_Type := "TERM_MATCH"; tm_Field := f_Field f; tm_Value := Text (f_Value f) |})
     <$> filters)
  ++ [ {| tm_Type := "TERM_MATCH"; tm_Field := "location"; tm_Value := locationName |} ].

Definition mkCommand (serviceCode : string) (filters : list Filter) : GetProductsCommand :=
  {| ServiceCode := serviceCode; Filters := allFilters filters; MaxResults := 1 |}.

Definition queryPrice (w : World) (serviceCode : string) (filters : list Filter)
    : option PriceEntry * World :=
  let key := cacheKey serviceCode filters in
  match priceCache w !! key with
  | Some cached => (cached, w)
  | None =>
      let cmd := mkCommand serviceCode filters in
      let entry := quoteOf (send env (length (sent w)) cmd) in
      (entry, {| priceCache := <[key := entry]> (priceCache w);
                 sent := sent w ++ [cmd] |})
  end.

(** The cache key a request to the service was made for: the filters of
    the request without the location filter that [queryPrice] appends. *)
Definition commandFilters (cmd : GetProductsCommand) : list Filter :=
  (λ t, {| f_Field := tm_Field t;
           f_Value := match tm_Value t with Text s => s | Inherited _ => EmptyString end |})
    <$> take (length (Filters cmd) - 1) (Filters cmd).

Definition commandKey (cmd : GetProductsCommand) : string :=
  cacheKey (ServiceCode cmd) (commandFilters cmd).

(** ** Formatting *)

Definition fmt (n : option Qc) : string :=
  match n with
  | None => "-"
  | Some q => "$" +:+ toLocaleString env q
  end.

Definition fmtDelta (n : option Qc) : string :=
  match n with
  | None => "no cost data"
  | Some q =>
      if bool_decide (Qcabs q < Q2Qc (5 # 1000))%Qc then "~$0.00"
      else (if bool_decide (0 < q)%Qc then "+" else EmptyString)
             +:+ "$" +:+ toLocaleString env q
  end.

(** ** Main loop *)

Definition start : Acc :=
  {| rows := []; totalDelta := 0%Qc; pricedCount := 0; freeCount := 0;
     world := newWorld; thrown := None |}.

Definition isSkipped (res : Resource) : bool :=
  startsWith (type res) "_" || bool_decide (type res = "Unknown").

Definition freeList (resourceMap : ResourceMap) : list string :=
  default [] (_free resourceMap).

Definition isFree (resourceMap : ResourceMap) (res : Resource) : bool :=
  bool_decide (type res ∈ freeList resourceMap).

Definition unmappedRow (stack : Stack) (res : Resource) : Row :=
  {| r_stack := stackName stack; r_id := cleanId (logicalId res);
     r_type := shortType (type res); r_detail := EmptyString;
     r_action := action res;
     before := None; after := None; delta := None |}.

(** The pricing step: before-cost, after-cost, whether [pricedCount] is
    incremented, and the world after the lookups. *)
Definition priceResource (w : World) (mapping : Mapping) (res : Resource)
    : option Qc * option Qc * bool * World :=
  if bool_decide (action res = "ADD") then
    let '(price, w1) :=
      queryPrice w (serviceCode mapping) (buildFilters mapping (properties res) true) in
    match price with
    | Some p => (None, Some (monthlyCost (usd p) mapping), true, w1)
    | None => (None, None, false, w1)
    end
  else if bool_decide (action res = "REMOVE") then
    let '(price, w1) :=
      queryPrice w (serviceCode mapping) (buildFilters mapping (properties res) false) in
    match price with
    | Some p => (Some (monthlyCost (usd p) mapping), None, true, w1)
    | None => (None, None, false, w1)
    end
  else if bool_decide (action res = "UPDATE") then
    let '(oldPrice, w1) :=
      queryPrice w (serviceCode mapping) (buildFilters mapping (properties res) false) in
    let '(newPrice, w2) :=
      queryPrice w1 (serviceCode mapping) (buildFilters mapping (properties res) true) in
    ((λ p, monthlyCost (usd p) mapping) <$> oldPrice,
     (λ p, monthlyCost (usd p) mapping) <$> newPrice,
     bool_decide (is_Some oldPrice) || bool_decide (is_Some newPrice),
     w2)
  else (None, None, false, w).

Definition deltaOf (beforeCost afterCost : option Qc) : option Qc :=
  match beforeCost, afterCost with
  | None, None => None
  | _, _ => Some (orZero afterCost - orZero beforeCost)%Qc
  end.

(** The detail string of an UPDATE, e.g. "t3.micro → t3.large". *)
Fixpoint changeDetail (fs : list FilterSpec)
    (properties : option (list PropertyChange)) : string :=
  match fs with
  | [] => EmptyString
  | f :: fs' =>
      match vd_cfProperty (Value f) with
      | Some cf =>
          if bool_decide (cf = EmptyString) then changeDetail fs' properties
          else
            match List.find (λ p, bool_decide (name p = cf)) (default [] properties) with
            | Some prop =>
                if truthy (oldValue prop) && truthy (newValue prop)
                   && negb (bool_decide (oldValue prop = newValue prop))
                then orElse (oldValue prop) EmptyString +:+ " → "
                     +:+ orElse (newValue prop) EmptyString
                else changeDetail fs' properties
            | None => changeDetail fs' properties
            end
      | None => changeDetail fs' properties
      end
  end.

Definition pricedRow (stack : Stack) (res : Resource) (mapping : Mapping)
    (beforeCost afterCost : option Qc) : Row :=
  {| r_stack := stackName stack; r_id := cleanId (logicalId res);
     r_type := shortType (type res);
     r_detail := if bool_decide (action res = "UPDATE")
                 then changeDetail (filters mapping) (properties res)
                 else EmptyString;
     r_action := action res;
     before := beforeCost; after := afterCost;
     delta := deltaOf beforeCost afterCost |}.

(** The actions for which the loop calls [buildFilters]. *)
Definition callsBuildFilters (res : Resource) : bool :=
  bool_decide (action res = "ADD") || bool_decide (action res = "REMOVE")
  || bool_decide (action res = "UPDATE").

(** The body of the loop over the resources of a stack.  When
    [resourceMap[res.type]] is truthy and not a rule, it has no [filters]:
    [buildFilters] throws on it, before any lookup; for an action that
    calls no [buildFilters] the row is pushed with no cost and no
    detail, as the row of a type that finds nothing. *)
Definition processResource (resourceMap : ResourceMap) (stack : Stack)
    (st : Acc) (res : Resource) : Acc :=
  if isSkipped res then st
  else if isFree resourceMap res then
    {| rows := rows st; totalDelta := totalDelta st;
       pricedCount := pricedCount st; freeCount := S (freeCount st);
       world := world st; thrown := thrown st |}
  else
    match prop_lookup (entries resourceMap) (type res) with
    | None =>
        if holdsOther resourceMap (type res) && callsBuildFilters res then
          {| rows := rows st; totalDelta := totalDelta st;
             pricedCount := pricedCount st; freeCount := freeCount st;
             world := world st; thrown := Some (notIterable env) |}
        else
          {| rows := rows st ++ [unmappedRow stack res];
             totalDelta := totalDelta st;
             pricedCount := pricedCount st; freeCount := freeCount st;
             world := world st; thrown := thrown st |}
    | Some mapping =>
        let '(beforeCost, afterCost, priced, w) :=
          priceResource (world st) mapping res in
        let row := pricedRow stack res mapping beforeCost afterCost in
        {| rows := rows st ++ [row];
           totalDelta := match delta row with
                         | Some d => (totalDelta st + d)%Qc
                         | None => totalDelta st
                         end;
           pricedCount := if priced then S (pricedCount st) else pricedCount st;
           freeCount := freeCount st;
           world := w; thrown := thrown st |}
    end.

(** A turn of the loop: none is run once an exception was thrown. *)
Definition turn (resourceMap : ResourceMap) (stack : Stack)
    (st : Acc) (res : Resource) : Acc :=
  match thrown st with
  | Some _ => st
  | None => processResource resourceMap stack st res
  end.

Definition processStack (resourceMap : ResourceMap) (st : Acc) (stack : Stack) : Acc :=
  if hasDiff stack
  then foldl (turn resourceMap stack) st (default [] (resources stack))
  else st.

(** The two loops of [main]. *)
Definition mainLoop (diffData : DiffData) (resourceMap : ResourceMap) : Acc :=
  foldl (processStack resourceMap) start (default [] (stacks diffData)).

(** ** The markdown report *)

Definition typeStr (r : Row) : string :=
  if truthy (Some (r_detail r))
  then r_type r +:+ " (" +:+ r_detail r +:+ ")"
  else r_type r.

Definition icon (r : Row) : string :=
  if bool_decide (r_action r = "ADD") then "🟢"
  else if bool_decide (r_action r = "REMOVE") then "🔴"
  else "🟡".

Definition rowLine (r : Row) : string :=
  "| " +:+ r_stack r +:+ " | " +:+ r_id r +:+ " | " +:+ typeStr r +:+ " | "
       +:+ icon r +:+ " " +:+ r_action r +:+ " | " +:+ fmt (before r) +:+ " | "
       +:+ fmt (after r) +:+ " | " +:+ fmtDelta (delta r) +:+ " |" +:+ nl.

(** [rows.filter((r) => r.delta === null).length] *)
Definition unmapped (rs : list Row) : nat :=
  length (filter (λ r, delta r = None) rs).

(** [fullType && resourceMap[fullType].note], where [fullType] is the
    first key of the resource map whose short type is the type of the
    row: a key that is empty gives no note, nor does a value that is not
    a rule. *)
Definition noteOf (resourceMap : ResourceMap) (r : Row) : option string :=
  match List.find (λ kv, bool_decide (shortType kv.1 = r_type r)) (members resourceMap) with
  | Some (fullType, Rule mapping) =>
      if truthy (Some fullType) && truthy (note mapping) then note mapping else None
  | Some (_, NotRule _) => None
  | None => None
  end.

(** The set [usedNotes], in insertion order. *)
Definition usedNotes (resourceMap : ResourceMap) (rs : list Row) : list string :=
  foldl (λ used r,
           match delta r with
           | None => used
           | Some _ =>
               match noteOf resourceMap r with
               | Some n => if bool_decide (n ∈ used) then used else used ++ [n]
               | None => used
               end
           end) [] rs.

Definition buildMarkdown (resourceMap : ResourceMap) (st : Acc) : string :=
  let md := nl +:+ nl +:+ "## 💰 Cost Estimate" +:+ nl +:+ nl in
  let md :=
    match rows st with
    | [] => md +:+ "No infrastructure changes with cost impact detected." +:+ nl
    | _ =>
        let md := md +:+ "**Estimated monthly impact: "
                     +:+ fmtDelta (Some (totalDelta st)) +:+ "/mo**" +:+ nl +:+ nl in
        let md := md +:+ "| Stack | Resource | Type | Change | Before | After | Delta |" +:+ nl in
        let md := md +:+ "|-------|----------|------|--------|-------:|------:|------:|" +:+ nl in
        let md := foldl (λ md r, md +:+ rowLine r) md (rows st) in
        let md :=
          if (0 <? unmapped (rows st))%nat
          then md +:+ nl +:+ "> ℹ️ **" +:+ pretty (unmapped (rows st))
                  +:+ "** resource(s) have no pricing data. Add entries to `.github/pricing/resource-map.json` to extend coverage."
                  +:+ nl
          else md in
        let md :=
          if (0 <? freeCount st)%nat
          then md +:+ nl +:+ "> ✅ **" +:+ pretty (freeCount st)
                  +:+ "** resource(s) are free (IAM, policies, etc.) and excluded from the estimate."
                  +:+ nl
          else md in
        match usedNotes resourceMap (rows st) with
        | [] => md
        | notes =>
            let md := md +:+ nl +:+ "<details><summary>📝 Estimation notes</summary>"
                         +:+ nl +:+ nl in
            let md := foldl (λ md n, md +:+ "- " +:+ n +:+ nl) md notes in
            md +:+ nl +:+ "</details>" +:+ nl
        end
    end in
  md +:+ nl +:+ "<sub>Prices: AWS Pricing API (on-demand, " +:+ locationText
     +:+ "). Estimates are approximate.</sub>" +:+ nl.

(** [main]: the markdown it writes to the standard output, or the
    exception that ends it. *)
Definition main (diffData : DiffData) (resourceMap : ResourceMap) : Ended :=
  let st := mainLoop diffData resourceMap in
  match thrown st with
  | Some message => Threw message
  | None => Printed (buildMarkdown resourceMap st)
  end.

(** ** The script *)

(** The script from its arguments: each input is either rejected by
    [JSON.parse], with the message of the exception, or read; an
    exception of [main] is caught and printed as an error. *)
Definition estimate_cost (diffJson : Parsed DiffData)
    (resourceMapFile : Parsed ResourceMap) : Output :=
  match diffJson, resourceMapFile with
  | ParseError m, _ => {| markdown := EmptyString; error := Some m |}
  | ParseOk _, ParseError m => {| markdown := EmptyString; error := Some m |}
  | ParseOk diffData, ParseOk resourceMap =>
      match main diffData resourceMap with
      | Printed md => {| markdown := md; error := None |}
      | Threw message => {| markdown := EmptyString; error := Some message |}
      end
  end.

End Estimator.

(** ** Vocabulary of the statements *)

(** The resource changes that [main] visits, in order: those of the stacks
    that have a difference, each with its stack. *)
Definition work (diffData : DiffData) : list (Stack * Resource) :=
  stack ← default [] (stacks diffData);
  if hasDiff stack
  then (λ res, (stack, res)) <$> default [] (resources stack)
  else [].

(** One turn of the inner loop on a resource change. *)
Definition step (env : Env) (resourceMap : ResourceMap)
    (st : Acc) (sr : Stack * Resource) : Acc :=
  processResource env resourceMap sr.1 st sr.2.

(** The turn of the loop on a resource change throws: the resource change
    is neither skipped nor free, its type is not the key of a rule but
    finds a truthy value of the map or an inherited one, and its action
    calls [buildFilters]. *)
Definition throws (resourceMap : ResourceMap) (res : Resource) : bool :=
  negb (isSkipped res) && negb (isFree resourceMap res)
  && match prop_lookup (entries resourceMap) (type res) with
     | Some _ => false
     | None => holdsOther resourceMap (type res) && callsBuildFilters res
     end.

(** The resource changes before the first whose turn throws. *)
Fixpoint completed (resourceMap : ResourceMap) (ws : list (Stack * Resource))
    : list (Stack * Resource) :=
  match ws with
  | [] => []
  | sr :: ws' => if throws resourceMap sr.2 then [] else sr :: completed resourceMap ws'
  end.

(** The resource changes whose turn a run completes. *)
Definition visited (resourceMap : ResourceMap) (diffData : DiffData)
    : list (Stack * Resource) :=
  completed resourceMap (work diffData).

(** Some turn of the run throws. *)
Definition aborts (resourceMap : ResourceMap) (diffData : DiffData) : bool :=
  existsb (λ sr, throws resourceMap sr.2) (work diffData).

(** The variables of a run with another exception. *)
Definition setThrown (t : option string) (st : Acc) : Acc :=
  {| rows := rows st; totalDelta := totalDelta st;
     pricedCount := pricedCount st; freeCount := freeCount st;
     world := world st; thrown := t |}.

(** [x ?? 0] *)
Definition nullish (o : option Qc) : Qc := default 0%Qc o.

(** The delta as the specification words it: null when neither cost was
    priced, else (after ?? 0) - (before ?? 0). *)
Definition delta_spec (beforeCost afterCost : option Qc) : option Qc :=
  match beforeCost, afterCost with
  | None, None => None
  | _, _ => Some (nullish afterCost - nullish beforeCost)%Qc
  end.

(** The sum of the deltas that are not null. *)
Definition sumDeltas (rs : list Row) : Qc :=
  foldr Qcplus 0%Qc (omap delta rs).

(** The monthly cost as the specification words it: the hourly multiplier
    when present, else the quantity multiplier when present, else the unit
    price. *)
Definition monthlyCost_spec (unitPrice : Qc) (mapping : Mapping) : Qc :=
  match monthlyHours mapping with
  | Some h => (unitPrice * h)%Qc
  | None =>
      match monthlyQuantity mapping with
      | Some q => (unitPrice * q)%Qc
      | None => unitPrice
      end
  end.

(** A multiplier that is absent, or present and zero. *)
Definition noMultiplier (o : option Qc) : Prop := o = None ∨ o = Some 0%Qc.

(** The old or new value of the first property change with a given name. *)
Definition directionalValue (properties : option (list PropertyChange))
    (cf : string) (useNew : bool) : option string :=
  prop ← List.find (λ p, bool_decide (name p = cf)) (default [] properties);
  if useNew then newValue prop else oldValue prop.

(** A value that is absent, empty, or one of the texts null and undefined. *)
Definition nullLike (v : option string) : Prop :=
  v = None ∨ v = Some EmptyString ∨ v = Some "null" ∨ v = Some "undefined".

(** The test of [resolveFilterValue] on the value of a property. *)
Definition usable (v : option string) : bool :=
  truthy v && negb (bool_decide (v = Some "null"))
           && negb (bool_decide (v = Some "undefined")).

(** A filter that takes its value from a property which changed from a
    value [o] to another value [n]. *)
Definition definingChange (properties : option (list PropertyChange))
    (f : FilterSpec) (o n : string) : Prop :=
  ∃ cf, vd_cfProperty (Value f) = Some cf ∧ cf ≠ EmptyString
        ∧ directionalValue properties cf false = Some o
        ∧ directionalValue properties cf true = Some n
        ∧ o ≠ EmptyString ∧ n ≠ EmptyString ∧ o ≠ n.

(** The lookups of a resource change: the calls of [queryPrice] of its
    turn of the loop, in order, each with its service code and filters. *)
Definition lookups (resourceMap : ResourceMap) (res : Resource)
    : list (string * list Filter) :=
  if isSkipped res || isFree resourceMap res then []
  else
    match prop_lookup (entries resourceMap) (type res) with
    | None => []
    | Some mapping =>
        let lookup useNew :=
          (serviceCode mapping, buildFilters mapping (properties res) useNew) in
        if bool_decide (action res = "ADD") then [lookup true]
        else if bool_decide (action res = "REMOVE") then [lookup false]
        else if bool_decide (action res = "UPDATE") then [lookup false; lookup true]
        else []
    end.



(** The cache and the requests after a sequence of lookups. *)
Definition lookupAll (env : Env) (w : World) (ls : list (string * list Filter)) : World :=
  foldl (λ w lookup, (queryPrice env w lookup.1 lookup.2).2) w ls.

(** All the lookups of a run, in order. *)
Definition runLookups (resourceMap : ResourceMap) (diffData : DiffData)
    : list (string * list Filter) :=
  sr ← visited resourceMap diffData; lookups resourceMap sr.2.

(** The order of the sort of [cacheKey]: by field name. *)
Definition fieldOrder (env : Env) (f g : Filter) : Prop :=
  (localeCompare env (f_Field f) (f_Field g) ≤ 0)%Z.


(** The first result of [f] along a list. *)
Fixpoint firstSome {A B} (f : A → option B) (l : list A) : option B :=
  match l with
  | [] => None
  | x :: l' =>
      match f x with
      | Some y => Some y
      | None => firstSome f l'
      end
  end.

(** The price dimensions of a product, in the order [queryPrice] reads
    them. *)
Definition productDimensions (product : Product) : list PriceDimension :=
  offer ← default [] (OnDemand product);
  snd <$> default [] (priceDimensions offer.2).

(** A dimension whose USD price reads as a number above zero. *)
Definition positiveDimension (env : Env) (d : PriceDimension) : Prop :=
  ∃ p, parseFloat env (orElse (pricePerUnit_USD d) "0") = Some p ∧ (0 < p)%Qc.

(** The quotes kept in a cache are all above zero. *)
Definition cachePositive (w : World) : Prop :=
  ∀ k e, priceCache w !! k = Some (Some e) → (0 < usd e)%Qc.

(** The resource changes that get a row: those whose turn is completed
    and that are neither skipped nor free. *)
Definition billable (resourceMap : ResourceMap) (diffData : DiffData)
    : list (Stack * Resource) :=
  filter (λ sr, isSkipped sr.2 = false ∧ isFree resourceMap sr.2 = false)
         (visited resourceMap diffData).

(** The monthly cost of a quote under a rule: null for no quote. *)
Definition costOf (mapping : Mapping) (quote : option PriceEntry) : option Qc :=
  (λ p, monthlyCost (usd p) mapping) <$> quote.

(** What the cache holds for the lookup of a resource change in one
    direction. *)
Definition cachedQuote (env : Env) (w : World) (mapping : Mapping) (res : Resource)
    (useNew : bool) : option (option PriceEntry) :=
  priceCache w !! cacheKey env (serviceCode mapping)
                    (buildFilters mapping (properties res) useNew).

(** The costs of the row of a resource change are the monthly costs of the
    quotes that the cache holds for its lookups: the after-cost of an ADD,
    the before-cost of a REMOVE, both costs of an UPDATE; the other costs
    are null. *)
Definition costsFromQuotes (env : Env) (w : World) (mapping : Mapping)
    (res : Resource) (row : Row) : Prop :=
  (action res = "ADD" →
   before row = None
   ∧ ∃ q, cachedQuote env w mapping res true = Some q ∧ after row = costOf mapping q)
  ∧ (action res = "REMOVE" →
     after row = None
     ∧ ∃ q, cachedQuote env w mapping res false = Some q ∧ before row = costOf mapping q)
  ∧ (action res = "UPDATE" →
     ∃ q q', cachedQuote env w mapping res false = Some q
             ∧ cachedQuote env w mapping res true = Some q'
             ∧ before row = costOf mapping q ∧ after row = costOf mapping q')
  ∧ (callsBuildFilters res = false → before row = None ∧ after row = None).

(** What a row and a resource change have in common whatever the prices. *)
Definition rowIdentity (r : Row) : string * string * string * string :=
  (r_stack r, r_id r, r_type r, r_action r).

Definition resourceIdentity (sr : Stack * Resource) : string * string * string * string :=
  (stackName sr.1, cleanId (logicalId sr.2), shortType (type sr.2), action sr.2).

(** The row of a resource change, given the cache of the run: it names
    the resource change, its costs are those of the quotes of its lookups
    when its type has a rule and are null when it has none, and its delta
    is null when both costs are null and (after ?? 0) - (before ?? 0)
    otherwise. *)
Definition rowOf (env : Env) (resourceMap : ResourceMap) (w : World)
    (sr : Stack * Resource) (row : Row) : Prop :=
  rowIdentity row = resourceIdentity sr
  ∧ delta row = delta_spec (before row) (after row)
  ∧ match prop_lookup (entries resourceMap) (type sr.2) with
    | Some mapping => costsFromQuotes env w mapping sr.2 row
    | None => before row = None ∧ after row = None
    end.



(** An environment that differs from [env] in the pricing service only. *)
Definition withService (env : Env) (service : nat → GetProductsCommand → SendResult)
    : Env :=
  {| localeCompare := localeCompare env; parseFloat := parseFloat env;
     toLocaleString := toLocaleString env; send := service;
     regionArg := regionArg env; notIterable := notIterable env;
     inheritedText := inheritedText env |}.


(** ** A concrete environment and inputs for the examples *)

Definition byteCompare (a b : string) : Z :=
  match String.compare a b with
  | Lt => (-1)%Z
  | Eq => 0%Z
  | Gt => 1%Z
  end.

Fixpoint digitsValue (s : string) (acc : N) : option N :=
  match s with
  | EmptyString => Some acc
  | String c rest =>
      if in_range 48 57 c
      then digitsValue rest (10 * acc + N.of_nat (nat_of_ascii c - 48))%N
      else None
  end.

(** Reads a plain decimal literal, digits with an optional fraction, as
    [parseFloat] does for such a text. *)
Definition parseDecimal (s : string) : option Qc :=
  let '(int, frac) :=
    match String.index 0 "." s with
    | Some i => (String.substring 0 i s,
                 String.substring (S i) (String.length s - S i) s)
    | None => (s, EmptyString)
    end in
  if bool_decide (int = EmptyString) then None
  else
    match digitsValue int 0, digitsValue frac 0 with
    | Some a, Some b =>
        let scale := (10 ^ N.of_nat (String.length frac))%N in
        Some (Q2Qc (Z.of_N (a * scale + b) # N.succ_pos (N.pred scale)))
    | _, _ => None
    end.

(** Prints a number as numerator/denominator; stands for the locale
    formatting in the examples. *)
Definition showQc (q : Qc) : string :=
  pretty (Qnum q) +:+ "/" +:+ pretty (Zpos (Qden q)).

Definition priceList (prices : list string) : SendResult :=
  SendOk (Some [ ProductJson {| OnDemand := Some [ ("offer",
    {| priceDimensions := Some ((λ p,
         ("dim", {| pricePerUnit_USD := Some p; pd_unit := Some "Hrs";
                    pd_description := Some "per hour" |})) <$> prices) |}) ] |} ]).

(** A service that quotes a price by instance type. *)
Definition exampleService (n : nat) (cmd : GetProductsCommand) : SendResult :=
  if bool_decide (Text "small" ∈ tm_Value <$> Filters cmd) then priceList ["0.05"]
  else if bool_decide (Text "large" ∈ tm_Value <$> Filters cmd) then priceList ["0.20"]
  else if bool_decide (Text "free-tier" ∈ tm_Value <$> Filters cmd) then priceList ["0.0000000000"]
  else if bool_decide (Text "micro" ∈ tm_Value <$> Filters cmd) then priceList ["0.0084"]
  else if bool_decide (Text "offline" ∈ tm_Value <$> Filters cmd) then SendThrows "network error"
  else SendOk (Some []).

(** The text of an inherited value in Node. *)
Definition nodeInheritedText (key : string) : string :=
  if bool_decide (key = "__proto__") then "[object Object]"
  else "function " +:+ (if bool_decide (key = "constructor") then "Object" else key)
       +:+ "() { [native code] }".

Definition exampleEnv : Env :=
  {| localeCompare := byteCompare; parseFloat := parseDecimal;
     toLocaleString := showQc; send := exampleService;
     regionArg := Some "eu-west-1";
     notIterable := "mapping.filters is not iterable";
     inheritedText := nodeInheritedText |}.

Definition instanceRule : Mapping :=
  {| serviceCode := "Compute"; m_unit := "Hrs";
     monthlyHours := Some (Q2Qc 730); monthlyQuantity := None;
     filters := [ {| Field := "instanceType";
                     Value := {| vd_default := None; vd_cfProperty := Some "InstanceType" |} |};
                  {| Field := "operatingSystem";
                     Value := {| vd_default := Some "Linux"; vd_cfProperty := None |} |} ];
     note := None |}.

Definition volumeRule : Mapping :=
  {| serviceCode := "Storage"; m_unit := "GB-Mo";
     monthlyHours := None; monthlyQuantity := None;
     filters := [ {| Field := "volumeApiName";
                     Value := {| vd_default := Some "gp3"; vd_cfProperty := Some "VolumeType" |} |} ];
     note := Some "EBS volume" |}.

Definition exampleMap : ResourceMap :=
  {| _free := Some ["IAM::Role"; "Unknown"];
     members := [ ("_comment", NotRule true);
                  ("_free", NotRule true);
                  ("Compute::Instance", Rule instanceRule);
                  ("Storage::Volume", Rule volumeRule) ] |}.

Definition instanceChange (id act : string) (old new : option string) : Resource :=
  {| logicalId := id; type := "Compute::Instance"; action := act;
     properties := Some [ {| name := "InstanceType"; impact := "WILL_REPLACE";
                             oldValue := old; newValue := new |} ] |}.

Definition netStack (rs : list Resource) : Stack :=
  {| stackName := "Net"; hasDiff := true; resources := Some rs |}.

Definition report (rs : list Resource) : DiffData :=
  {| stacks := Some [ netStack rs ] |}.

Definition microChange : Resource :=
  instanceChange "WebServer1A2B3C4D" "ADD" None (Some "micro").

(** The quote of [exampleService] for the micro instance type. *)
Definition microPrice : PriceEntry :=
  {| usd := Q2Qc (84 # 10000); pe_unit := "Hrs"; description := "per hour" |}.

Definition microWorld : World :=
  (queryPrice exampleEnv newWorld "Compute"
     (buildFilters instanceRule (properties microChange) true)).2.

Definition microKey : string := cacheKey exampleEnv "Compute"
  (buildFilters instanceRule (properties microChange) true).


Definition resizeChange : Resource :=
  instanceChange "Api" "UPDATE" (Some "small") (Some "large").

Definition unknownChange : Resource :=
  {| logicalId := "Mystery"; type := "Unknown"; action := "ADD"; properties := None |}.


Definition failedChange : Resource := instanceChange "Web" "ADD" None (Some "offline").

(** A resource change whose type is the name of a property that every
    object inherits. *)
Definition constructorChange : Resource :=
  {| logicalId := "Odd"; type := "constructor"; action := "ADD"; properties := None |}.


Definition zeroHoursRule : Mapping :=
  {| serviceCode := "Compute"; m_unit := "Hrs";
     monthlyHours := Some 0%Qc; monthlyQuantity := None;
     filters := [ {| Field := "instanceType";
                     Value := {| vd_default := Some "micro"; vd_cfProperty := None |} |} ];
     note := None |}.

Definition zeroHoursMap : ResourceMap :=
  {| _free := None; members := [ ("Compute::Spot", Rule zeroHoursRule) ] |}.

Definition spotChange : Resource :=
  {| logicalId := "Spot"; type := "Compute::Spot"; action := "ADD"; properties := None |}.

Definition volumeFilter : FilterSpec :=
  {| Field := "volumeApiName";
     Value := {| vd_default := Some "gp3"; vd_cfProperty := Some "VolumeType" |} |}.

Definition volumeProperties : option (list PropertyChange) :=
  Some [ {| name := "VolumeType"; impact := "MAY_REPLACE";
            oldValue := Some "gp2"; newValue := Some "null" |} ].

(** A service that raises an error on the requests of one key. *)
Definition outage (k : string) (n : nat) (cmd : GetProductsCommand) : SendResult :=
  if bool_decide (commandKey exampleEnv cmd = k) then SendThrows "timeout"
  else exampleService n cmd.

(** ** Vocabulary of the further properties *)




(** A multiplier that is not below zero, when it is given. *)
Definition nonNegative (o : option Qc) : Prop := ∀ q, o = Some q → (0 ≤ q)%Qc.

(** A rule none of whose filters takes its value from a property. *)
Definition staticRule (mapping : Mapping) : Prop :=
  Forall (λ f, truthy (vd_cfProperty (Value f)) = false) (filters mapping).

(** The costs of a row are above zero, the delta of an ADD is above zero
    and the delta of a REMOVE is below zero. *)
Definition signedRow (r : Row) : Prop :=
  (∀ c, before r = Some c → (0 < c)%Qc)
  ∧ (∀ c, after r = Some c → (0 < c)%Qc)
  ∧ (r_action r = "ADD" → ∀ d, delta r = Some d → (0 < d)%Qc)
  ∧ (r_action r = "REMOVE" → ∀ d, delta r = Some d → (d < 0)%Qc).

(** The location filter that [queryPrice] appends to every request. *)
Definition locationFilter (env : Env) : TermMatch :=
  {| tm_Type := "TERM_MATCH"; tm_Field := "location"; tm_Value := locationName env |}.

(** A value that is a text and is not empty. *)
Definition presentText (v : Found) : Prop := ∃ s, v = Text s ∧ s ≠ EmptyString.

(** A request as [queryPrice] builds it: at most one result is asked for,
    every filter is an exact match, the last filter is the location, and
    the value of every filter before it is a text that is not empty. *)
Definition wellFormedRequest (env : Env) (cmd : GetProductsCommand) : Prop :=
  MaxResults cmd = 1
  ∧ Forall (λ t, tm_Type t = "TERM_MATCH") (Filters cmd)
  ∧ (∃ before_, Filters cmd = before_ ++ [locationFilter env]
                ∧ Forall (λ t, presentText (tm_Value t)) before_).

(** The same resource change with other property changes. *)
Definition withProperties (res : Resource) (ps : list PropertyChange) : Resource :=
  {| logicalId := logicalId res; type := type res; action := action res;
     properties := Some ps |}.

(** Two property changes with the same name and the same value in one
    direction. *)
Definition sameDirection (useNew : bool) (p p' : PropertyChange) : Prop :=
  name p = name p'
  ∧ (if useNew then newValue p = newValue p' else oldValue p = oldValue p').

(** The example environment with a region that the table does not have. *)
Definition marsEnv : Env :=
  {| localeCompare := byteCompare; parseFloat := parseDecimal;
     toLocaleString := showQc; send := exampleService;
     regionArg := Some "mars-north-1";
     notIterable := "mapping.filters is not iterable";
     inheritedText := nodeInheritedText |}.

(** The example environment with a region that is the name of a property
    that every object inherits. *)
Definition constructorEnv : Env :=
  {| localeCompare := byteCompare; parseFloat := parseDecimal;
     toLocaleString := showQc; send := exampleService;
     regionArg := Some "constructor";
     notIterable := "mapping.filters is not iterable";
     inheritedText := nodeInheritedText |}.

(** A comparison that takes no account of the case of letters, as a
    comparison of texts by collation may: two texts that differ only in
    case compare as equal. *)
Definition lowerCase (s : string) : string :=
  string_of_list_ascii
    ((λ c, if is_upper c then ascii_of_nat (nat_of_ascii c + 32) else c)
       <$> list_ascii_of_string s).

Definition caseBlindCompare (a b : string) : Z :=
  byteCompare (lowerCase a) (lowerCase b).

Definition foldingEnv : Env :=
  {| localeCompare := caseBlindCompare; parseFloat := parseDecimal;
     toLocaleString := showQc; send := exampleService;
     regionArg := Some "eu-west-1";
     notIterable := "mapping.filters is not iterable";
     inheritedText := nodeInheritedText |}.

Definition is_colon (c : ascii) : bool := (nat_of_ascii c =? 58)%nat.

Definition startsColon (s : string) : bool :=
  match s with
  | String c _ => is_colon c
  | EmptyString => false
  end.

(** The text has the separator of resource types, two colons, in it. *)
Fixpoint hasSeparator (s : string) : bool :=
  match s with
  | EmptyString => false
  | String c rest => (is_colon c && startsColon rest) || hasSeparator rest
  end.

Fixpoint endsColon (s : string) : bool :=
  match s with
  | EmptyString => false
  | String c rest =>
      match rest with
      | EmptyString => is_colon c
      | String _ _ => endsColon rest
      end
  end.

Definition string_tail (s : string) : string :=
  match s with
  | String _ rest => rest
  | EmptyString => EmptyString
  end.

Definition startsUpper (s : string) : bool :=
  match s with
  | String c _ => is_upper c
  | EmptyString => false
  end.

(** The text has a small letter followed at once by a capital letter. *)
Fixpoint hasCamelBoundary (s : string) : bool :=
  match s with
  | EmptyString => false
  | String a rest =>
      match rest with
      | String b _ => (is_lower a && is_upper b) || hasCamelBoundary rest
      | EmptyString => false
      end
  end.

Fixpoint removeSpaces (s : string) : string :=
  match s with
  | EmptyString => EmptyString
  | String c rest =>
      if (nat_of_ascii c =? 32)%nat then removeSpaces rest
      else String c (removeSpaces rest)
  end.

(** * The diff script [cdk-diff.ts]

    The script asks the CDK toolkit for the template diff and for the
    drift of the selected stacks and reshapes the answers into one
    report.

    Modelling conventions.
    - The toolkit, the clock and the configuration file are the
      environment of a run, the record [System].  A call of the toolkit
      either returns or throws an error with a message.
    - The answers of the toolkit are typed records in which a property
      that may be missing is an [option]; a template value is a JSON
      value, [JsonValue], with [undefined] added.
    - An object is the list of its own properties in the order of
      [Object.keys]; an object has no two properties of the same name.
    - The report is the value handed to [JSON.stringify]. *)

Module CdkDiff.

(** ** Template values *)

#[local] Set Warnings "-register-all".


Inductive JsonValue :=
  | JUndefined
  | JNull
  | JBoolean (b : bool)
  | JNumber (q : Qc)
  | JString (s : string)
  | JArray (items : list JsonValue)
  | JObject (members : list (string * JsonValue)).

(** [simplified[k] = v] gives the fresh object [simplified] the property
    [k], unless [k] is [__proto__]: that name is the accessor of the
    prototype, and assigning to it defines no property. *)
Definition definesProperty (k : string) : bool :=
  negb (bool_decide (k = "__proto__")).

Fixpoint simplifyValue (value : JsonValue) : JsonValue :=
  match value with
  | JUndefined | JNull => JUndefined
  | JBoolean _ | JNumber _ | JString _ => value
  | JArray items =>
      if bool_decide (length items = 0) then JString "[]"
      else if bool_decide (length items ≤ 3) then JArray (simplifyValue <$> items)
      else JString ("[" +:+ pretty (length items) +:+ " items]")
  | JObject members =>
      if bool_decide (length members = 0) then JString "{}"
      else if bool_decide (length members ≤ 3)
      then JObject (filter (λ kv, definesProperty kv.1 = true)
                           ((λ kv, (kv.1, simplifyValue kv.2)) <$> members))
      else JString ("{" +:+ pretty (length members) +:+ " properties}")
  end.


(** ** The answers of the toolkit *)

(** A value wrapped in an object: a principal or a peer. *)
Record Valued := { value : option string }.

Record PropertyDifference := {
  pd_changeImpact : option string;
  pd_isDifferent : bool;
  pd_oldValue : JsonValue;
  pd_newValue : JsonValue
}.

Record ResourceDifference := {
  (** [resourceTypes?.newType] and [resourceTypes?.oldType] *)
  newType : option string;
  oldType : option string;
  isAddition : bool;
  isRemoval : bool;
  propertyDiffs : option (list (string * PropertyDifference))
}.

Record Statement := {
  st_effect : option string;
  st_actions : option (list string);
  st_resources : option (list string);
  st_principals : option (list Valued)
}.

Record Rule := {
  rule_protocol : option string;
  rule_fromPort : option Qc;
  rule_toPort : option Qc;
  rule_peer : option Valued
}.

(** An object with the optional lists [additions] and [removals]. *)
Record Changes (A : Type) := {
  c_additions : option (list A);
  c_removals : option (list A)
}.

Arguments c_additions {A} _.
Arguments c_removals {A} _.

Record TemplateDiff := {
  (** [diff.resources?.diffs] *)
  diffs : option (list (string * ResourceDifference));
  (** [diff.iamChanges?.statements] *)
  statements : option (Changes Statement);
  (** [diff.securityGroupChanges?.ingress] and [.egress] *)
  ingress : option (Changes Rule);
  egress : option (Changes Rule)
}.

Record ResourceDrift := {
  rd_resourceType : option string;
  rd_driftStatus : option string;
  rd_propertyDifferences : JsonValue
}.

Record DriftInfo := {
  numResourcesWithDrift : option Qc;
  numResourcesUnchecked : option Qc;
  formattedDrift : option (list (string * ResourceDrift))
}.

(** ** The report *)

Record Config := {
  assemblyDir : string;
  profile : option string;
  c_stacks : option (list string);
  enableDrift : option bool;
  region : option string
}.

Record PropertyDiff := {
  name : string;
  changeImpact : string;
  isDifferent : bool;
  oldValue : JsonValue;
  newValue : JsonValue
}.

Record ResourceDiff := {
  logicalId : string;
  resourceType : string;
  action : string;
  properties : list PropertyDiff;
  willReplace : bool
}.

Record IamChange := {
  iam_type : string;
  effect : string;
  actions : list string;
  iam_resources : list string;
  principal : option string
}.

Record SecurityGroupChange := {
  sg_type : string;
  direction : string;
  protocol : string;
  fromPort : option Qc;
  toPort : option Qc;
  source : option string
}.

Record Summary := {
  additions : nat;
  updates : nat;
  removals : nat;
  replacements : nat
}.

(** [rawDiff] is never set and is left out. *)
Record StackDiffResult := {
  stackName : string;
  hasDifferences : bool;
  summary : Summary;
  resources : list ResourceDiff;
  iamChanges : list IamChange;
  securityGroupChanges : list SecurityGroupChange
}.

Record DriftSummary := { drifted : Qc; inSync : Qc; unchecked : Qc }.

Record DriftedResource := {
  dr_logicalId : string;
  dr_resourceType : string;
  driftStatus : string;
  propertyDifferences : JsonValue
}.

Record StackDriftResult := {
  drift_stackName : string;
  hasDrift : bool;
  drift_summary : DriftSummary;
  drift_resources : list DriftedResource
}.

Record DiffOutput := {
  success : bool;
  timestamp : string;
  stacks : list StackDiffResult;
  drift : option (list StackDriftResult);
  error : option string
}.

(** ** The environment *)

Inductive StackSelector :=
  | ALL_STACKS
  | PATTERN_MUST_MATCH (patterns : list string).

(** The outcome of a call that may throw. *)
Inductive Outcome (A : Type) :=
  | Throws (message : string)
  | Returns (a : A).

Arguments Throws {A} message.
Arguments Returns {A} a.

Record Toolkit := {
  Assembly : Type;
  fromAssemblyDirectory : string → Outcome Assembly;
  diff : Assembly → StackSelector → Outcome (list (string * TemplateDiff));
  detectDrift : Assembly → StackSelector → Outcome (list (string * DriftInfo))
}.

Record System := {
  (** [new Date().toISOString()] *)
  now : string;
  (** [new Toolkit(...)], with the profile of the credentials if any *)
  newToolkit : option string → Outcome Toolkit;
  (** The configuration file at a path: [None] when there is no such
      file, else what [JSON.parse] makes of it. *)
  configFile : string → option (Parsed Config)
}.

(** ** [runDiff] *)

Definition resourceAction (resDiff : ResourceDifference) : string :=
  if isAddition resDiff then "ADD"
  else if isRemoval resDiff then "REMOVE"
  else "UPDATE".

Definition count (resDiff : ResourceDifference) (s : Summary) : Summary :=
  if isAddition resDiff then
    {| additions := S (additions s); updates := updates s;
       removals := removals s; replacements := replacements s |}
  else if isRemoval resDiff then
    {| additions := additions s; updates := updates s;
       removals := S (removals s); replacements := replacements s |}
  else
    {| additions := additions s; updates := S (updates s);
       removals := removals s; replacements := replacements s |}.

Definition countReplacement (willReplace : bool) (s : Summary) : Summary :=
  if willReplace then
    {| additions := additions s; updates := updates s;
       removals := removals s; replacements := S (replacements s) |}
  else s.

(** [Object.values(resDiff.propertyDiffs || {}).some(...)] *)
Definition replaces (resDiff : ResourceDifference) : bool :=
  existsb (λ kv, bool_decide (pd_changeImpact kv.2 = Some "WILL_REPLACE"))
          (default [] (propertyDiffs resDiff)).

Definition propertyDiff (entry : string * PropertyDifference) : PropertyDiff :=
  {| name := entry.1;
     changeImpact := orElse (pd_changeImpact entry.2) "UNKNOWN";
     isDifferent := true;
     oldValue := simplifyValue (pd_oldValue entry.2);
     newValue := simplifyValue (pd_newValue entry.2) |}.

(** The entry pushed on [stackResult.resources]. *)
Definition resourceDiff (entry : string * ResourceDifference) : ResourceDiff :=
  {| logicalId := entry.1;
     resourceType := orElse (newType entry.2) (orElse (oldType entry.2) "Unknown");
     action := resourceAction entry.2;
     properties :=
       propertyDiff <$> filter (λ kv, pd_isDifferent kv.2 = true)
                               (default [] (propertyDiffs entry.2));
     willReplace := replaces entry.2 |}.

(** One turn of the loop over the resource diffs. *)
Definition resourceStep (stackResult : StackDiffResult)
    (entry : string * ResourceDifference) : StackDiffResult :=
  {| stackName := stackName stackResult;
     hasDifferences := hasDifferences stackResult;
     summary := countReplacement (replaces entry.2) (count entry.2 (summary stackResult));
     resources := resources stackResult ++ [resourceDiff entry];
     iamChanges := iamChanges stackResult;
     securityGroupChanges := securityGroupChanges stackResult |}.

(** [stmt.principals?.[0]?.value] *)
Definition firstPrincipal (stmt : Statement) : option string :=
  match st_principals stmt with
  | Some (p :: _) => value p
  | _ => None
  end.

Definition iamChange (type : string) (stmt : Statement) : IamChange :=
  {| iam_type := type;
     effect := orElse (st_effect stmt) "Allow";
     actions := default [] (st_actions stmt);
     iam_resources := default [] (st_resources stmt);
     principal := firstPrincipal stmt |}.

Definition securityGroupChange (type direction : string) (rule : Rule)
    : SecurityGroupChange :=
  {| sg_type := type; direction := direction;
     protocol := orElse (rule_protocol rule) "tcp";
     fromPort := rule_fromPort rule;
     toPort := rule_toPort rule;
     source := match rule_peer rule with Some p => value p | None => None end |}.

(** [(x?.additions || [])] and [(x?.removals || [])] *)
Definition added {A} (c : option (Changes A)) : list A :=
  match c with Some c => default [] (c_additions c) | None => [] end.

Definition removed {A} (c : option (Changes A)) : list A :=
  match c with Some c => default [] (c_removals c) | None => [] end.

(** The body of the loop over the diff results: the result of one stack. *)
Definition stackResult (stackName : string) (diff : TemplateDiff) : StackDiffResult :=
  let fresh :=
    {| stackName := stackName; hasDifferences := false;
       summary := {| additions := 0; updates := 0; removals := 0; replacements := 0 |};
       resources := []; iamChanges := []; securityGroupChanges := [] |} in
  let counted := foldl resourceStep fresh (default [] (diffs diff)) in
  {| stackName := CdkDiff.stackName counted;
     hasDifferences :=
       bool_decide (0 < additions (summary counted))
       || bool_decide (0 < updates (summary counted))
       || bool_decide (0 < removals (summary counted));
     summary := summary counted;
     resources := resources counted;
     iamChanges :=
       (iamChange "ADD" <$> added (statements diff))
       ++ (iamChange "REMOVE" <$> removed (statements diff));
     securityGroupChanges :=
       (securityGroupChange "ADD" "INGRESS" <$> added (ingress diff))
       ++ (securityGroupChange "REMOVE" "INGRESS" <$> removed (ingress diff))
       ++ (securityGroupChange "ADD" "EGRESS" <$> added (egress diff))
       ++ (securityGroupChange "REMOVE" "EGRESS" <$> removed (egress diff)) |}.

Definition driftedResource (entry : string * ResourceDrift) : DriftedResource :=
  {| dr_logicalId := entry.1;
     dr_resourceType := orElse (rd_resourceType entry.2) "Unknown";
     driftStatus := orElse (rd_driftStatus entry.2) "UNKNOWN";
     propertyDifferences := rd_propertyDifferences entry.2 |}.

(** The body of the loop over the drift results. *)
Definition driftResult (stackName : string) (driftInfo : DriftInfo) : StackDriftResult :=
  {| drift_stackName := stackName;
     hasDrift := bool_decide (0 < orZero (numResourcesWithDrift driftInfo))%Qc;
     drift_summary :=
       {| drifted := orZero (numResourcesWithDrift driftInfo);
          inSync := 0%Qc;
          unchecked := orZero (numResourcesUnchecked driftInfo) |};
     drift_resources := driftedResource <$> default [] (formattedDrift driftInfo) |}.

(** [config.stacks?.length ? ... : ...] *)
Definition stackSelector (config : Config) : StackSelector :=
  match c_stacks config with
  | Some (p :: ps) => PATTERN_MUST_MATCH (p :: ps)
  | _ => ALL_STACKS
  end.

(** The output of a run stopped by an error: the diff results are
    pushed once the last call of the outer [try] has returned, so the
    output has no stack. *)
Definition failed (sys : System) (message : string) : DiffOutput :=
  {| success := false; timestamp := now sys; stacks := []; drift := None;
     error := Some message |}.

Definition runDiff (sys : System) (config : Config) : DiffOutput :=
  match newToolkit sys (if truthy (profile config) then profile config else None) with
  | Throws message => failed sys message
  | Returns toolkit =>
      match fromAssemblyDirectory toolkit (assemblyDir config) with
      | Throws message => failed sys message
      | Returns cx =>
          match diff toolkit cx (stackSelector config) with
          | Throws message => failed sys message
          | Returns diffResults =>
              {| success := true; timestamp := now sys;
                 stacks := (λ kv, stackResult kv.1 kv.2) <$> diffResults;
                 drift :=
                   match enableDrift config with
                   | Some true =>
                       match detectDrift toolkit cx (stackSelector config) with
                       | Returns driftResults =>
                           Some ((λ kv, driftResult kv.1 kv.2) <$> driftResults)
                       | Throws _ => Some []
                       end
                   | _ => None
                   end;
                 error := None |}
          end
      end
  end.

(** ** The command line *)

(** The loop over the arguments, from the argument at hand on. *)
Fixpoint parseArgs (args : list string) (configPath : string) : string :=
  match args with
  | [] => configPath
  | a :: rest =>
      match rest with
      | v :: rest' =>
          if bool_decide (a = "--config") && negb (bool_decide (v = EmptyString))
          then parseArgs rest' v
          else parseArgs rest configPath
      | [] => configPath
      end
  end.

Definition defaultConfig : Config :=
  {| assemblyDir := "cdk.out"; profile := None; c_stacks := None;
     enableDrift := Some true; region := None |}.

(** What a run leaves: the report printed on the standard output, if
    any, and the exit code. *)
Record Exit := { stdout : option DiffOutput; exitCode : nat }.

Definition finish (result : DiffOutput) : Exit :=
  {| stdout := Some result; exitCode := if success result then 0 else 1 |}.

Definition main (sys : System) (args : list string) : Exit :=
  match configFile sys (parseArgs args "cdk-diff-config.json") with
  | Some (ParseOk config) => finish (runDiff sys config)
  | Some (ParseError _) => {| stdout := None; exitCode := 1 |}
  | None => finish (runDiff sys defaultConfig)
  end.

(** ** Vocabulary of the statements *)

(** A value as [simplifyValue] leaves it: no [null], no empty array, and
    no array or object of more than three members, at any depth. *)
Fixpoint simplified (v : JsonValue) : bool :=
  match v with
  | JNull => false
  | JArray items =>
      bool_decide (1 ≤ length items ≤ 3) && forallb simplified items
  | JObject members =>
      bool_decide (length members ≤ 3) && forallb (λ kv, simplified kv.2) members
  | _ => true
  end.

(** No object of the value has a property named [__proto__]. *)
Fixpoint plainKeys (v : JsonValue) : bool :=
  match v with
  | JArray items => forallb plainKeys items
  | JObject members =>
      forallb (λ kv, definesProperty kv.1 && plainKeys kv.2) members
  | _ => true
  end.

(** The number of reported resources with an action. *)
Definition withAction (act : string) (rs : list ResourceDiff) : nat :=
  length (filter (λ r, action r = act) rs).

(** The counters of a result are the counts of its resources. *)
Definition countsAgree (r : StackDiffResult) : Prop :=
  additions (summary r) = withAction "ADD" (resources r)
  ∧ updates (summary r) = withAction "UPDATE" (resources r)
  ∧ removals (summary r) = withAction "REMOVE" (resources r)
  ∧ replacements (summary r) = length (filter (λ x, willReplace x = true) (resources r))
  ∧ additions (summary r) + updates (summary r) + removals (summary r)
    = length (resources r).

Definition wellFormedProperty (p : PropertyDiff) : Prop :=
  isDifferent p = true
  ∧ changeImpact p ≠ EmptyString
  ∧ simplified (oldValue p) = true
  ∧ simplified (newValue p) = true.

Definition wellFormedResource (r : ResourceDiff) : Prop :=
  resourceType r ≠ EmptyString
  ∧ action r ∈ ["ADD"; "UPDATE"; "REMOVE"]
  ∧ Forall wellFormedProperty (properties r)
  ∧ (willReplace r = false
     → Forall (λ p, changeImpact p ≠ "WILL_REPLACE") (properties r)).

(** ** A concrete toolkit for the examples *)

Definition bucketDiff : ResourceDifference :=
  {| newType := Some "AWS::S3::Bucket"; oldType := None;
     isAddition := true; isRemoval := false;
     propertyDiffs := None |}.

Definition exampleDiff : TemplateDiff :=
  {| diffs := Some [ ("Bucket", bucketDiff) ];
     statements := None; ingress := None; egress := None |}.

(** A toolkit whose drift detection fails. *)
Definition exampleToolkit : Toolkit :=
  {| Assembly := string;
     fromAssemblyDirectory := λ dir, Returns dir;
     diff := λ _ _, Returns [ ("Net", exampleDiff) ];
     detectDrift := λ _ _, Throws "drift detection is not available" |}.

Definition exampleSystem : System :=
  {| now := "2024-01-01T00:00:00.000Z";
     newToolkit := λ _, Returns exampleToolkit;
     configFile := λ _, None |}.

End CdkDiff.

(** * Properties *)

(** ** The loops of [main] as one fold *)

Lemma foldl_invariant {A B} (P : A → Prop) (f : A → B → A) (l : list B) (a : A) :
  P a → (∀ a b, P a → P (f a b)) → P (foldl f a l).
Proof.
  intros Ha Hstep. revert a Ha.
  induction l as [|b l IH]; intros a Ha; simpl; [done|].
  apply IH, Hstep, Ha.
Qed.

Lemma mainLoop_turns env diffData resourceMap :
  mainLoop env diffData resourceMap
  = foldl (λ st sr, turn env resourceMap sr.1 st sr.2) start (work diffData).
Proof.
  unfold mainLoop, work. generalize start.
  induction (default [] (stacks diffData)) as [|s ss IH]; intros st; [done|].
  rewrite bind_cons, foldl_app. cbn [foldl]. rewrite IH. f_equal.
  unfold processStack. destruct (hasDiff s); [|done].
  generalize st. induction (default [] (resources s)) as [|r rs IHr]; intros st'; [done|].
  cbn. apply IHr.
Qed.

Lemma setThrown_same (st : Acc) : setThrown (thrown st) st = st.
Proof. by destruct st. Qed.

Lemma step_throws env resourceMap st sr :
  throws resourceMap sr.2 = true →
  step env resourceMap st sr = setThrown (Some (notIterable env)) st.
Proof.
  unfold throws, step, processResource.
  destruct (isSkipped sr.2); [done|]. destruct (isFree resourceMap sr.2); [done|].
  destruct (prop_lookup (entries resourceMap) (type sr.2)); [done|].
  cbn [negb andb]. by intros ->.
Qed.

Lemma step_thrown env resourceMap st sr :
  throws resourceMap sr.2 = false →
  thrown (step env resourceMap st sr) = thrown st.
Proof.
  unfold throws, step, processResource.
  destruct (isSkipped sr.2); [done|]. destruct (isFree resourceMap sr.2); [done|].
  destruct (prop_lookup (entries resourceMap) (type sr.2)) as [mapping|].
  - by destruct (priceResource env (world st) mapping sr.2) as [[[b a] priced] w].
  - cbn [negb andb]. by intros ->.
Qed.

Lemma turns_thrown env resourceMap (ws : list (Stack * Resource)) st message :
  thrown st = Some message →
  foldl (λ st sr, turn env resourceMap sr.1 st sr.2) st ws = st.
Proof.
  intros Hthrown. induction ws as [|sr ws IH]; [done|].
  cbn [foldl]. unfold turn at 2. by rewrite Hthrown.
Qed.

(** A run is the fold of the turns that it completes; the exception of
    the first turn that throws ends it. *)
Lemma run_completed env resourceMap (ws : list (Stack * Resource)) st :
  thrown st = None →
  foldl (λ st sr, turn env resourceMap sr.1 st sr.2) st ws
  = setThrown (if existsb (λ sr, throws resourceMap sr.2) ws
               then Some (notIterable env) else None)
              (foldl (step env resourceMap) st (completed resourceMap ws)).
Proof.
  revert st. induction ws as [|sr ws IH]; intros st Hthrown.
  - cbn. by rewrite <- Hthrown, setThrown_same.
  - cbn [foldl existsb completed]. unfold turn at 2. rewrite Hthrown.
    fold (step env resourceMap st sr).
    destruct (throws resourceMap sr.2) eqn:Hthrows; cbn [orb foldl].
    + rewrite (step_throws _ _ _ _ Hthrows).
      by apply (turns_thrown _ _ _ _ (notIterable env)).
    + apply IH. by rewrite (step_thrown _ _ _ _ Hthrows).
Qed.

Lemma mainLoop_work env diffData resourceMap :
  mainLoop env diffData resourceMap
  = setThrown (if aborts resourceMap diffData then Some (notIterable env) else None)
              (foldl (step env resourceMap) start (visited resourceMap diffData)).
Proof. rewrite mainLoop_turns. by apply run_completed. Qed.

(** What holds at the start of a run and is kept by every turn holds at
    its end. *)
Lemma mainLoop_invariant env diffData resourceMap (P : Acc → Prop) :
  (∀ t st, P st → P (setThrown t st)) →
  P start →
  (∀ st sr, P st → P (step env resourceMap st sr)) →
  P (mainLoop env diffData resourceMap).
Proof.
  intros Hthrown Hstart Hstep. rewrite mainLoop_work.
  apply Hthrown. by apply foldl_invariant.
Qed.

Lemma mainLoop_thrown env diffData resourceMap :
  thrown (mainLoop env diffData resourceMap)
  = if aborts resourceMap diffData then Some (notIterable env) else None.
Proof. by rewrite mainLoop_work. Qed.

Lemma completed_no_throw resourceMap (ws : list (Stack * Resource)) :
  Forall (λ sr, throws resourceMap sr.2 = false) (completed resourceMap ws).
Proof.
  induction ws as [|sr ws IH]; [constructor|]. cbn.
  destruct (throws resourceMap sr.2) eqn:Hthrows; [constructor|]. by constructor.
Qed.

Lemma completed_all resourceMap (ws : list (Stack * Resource)) :
  existsb (λ sr, throws resourceMap sr.2) ws = false →
  completed resourceMap ws = ws.
Proof.
  induction ws as [|sr ws IH]; [done|]. cbn.
  intros [-> Hws]%orb_false_iff. by rewrite IH.
Qed.

Lemma startsWith_underscore rest : startsWith ("_" +:+ rest) "_" = true.
Proof. unfold startsWith. cbn. by destruct rest. Qed.

(** ** Skipped, free and unmapped resource changes *)

(** C10: a resource change whose type starts with an underscore or is
    Unknown leaves every variable of the run as it was: no row, no lookup
    and no request to the service, no count changed. *)
Theorem C10_skipped_resource_ignored env resourceMap stack st res :
  (∃ rest, type res = "_" +:+ rest) ∨ type res = "Unknown" →
  processResource env resourceMap stack st res = st
  ∧ lookups resourceMap res = [].
Proof.
  intros Hty.
  assert (isSkipped res = true) as Hskip.
  { unfold isSkipped. destruct Hty as [[rest ->] | ->].
    - by rewrite startsWith_underscore.
    - apply orb_true_r. }
  unfold processResource, lookups. by rewrite Hskip.
Qed.

Lemma C10_skipped_resource_ignored_witness :
  processResource exampleEnv exampleMap (netStack [unknownChange]) start unknownChange = start
  ∧ lookups exampleMap unknownChange = [].
Proof.
  apply (C10_skipped_resource_ignored exampleEnv exampleMap (netStack [unknownChange])
           start unknownChange).
  right. reflexivity.
Defined.

(** C6, as amended: a resource change whose type is in the free list, and
    which is not skipped for its type, adds one to the free count and
    changes nothing else: no row, no total, no lookup, no request. *)
Theorem C6_free_resource_counted env resourceMap stack st res :
  isSkipped res = false →
  type res ∈ freeList resourceMap →
  processResource env resourceMap stack st res
  = {| rows := rows st; totalDelta := totalDelta st;
       pricedCount := pricedCount st; freeCount := S (freeCount st);
       world := world st; thrown := thrown st |}
  ∧ lookups resourceMap res = [].
Proof.
  intros Hskip Hfree.
  assert (isFree resourceMap res = true) as Hf
    by (unfold isFree; by apply bool_decide_eq_true).
  unfold processResource, lookups. rewrite Hskip, Hf. done.
Qed.

Lemma C6_free_resource_counted_witness :
  let res := {| logicalId := "DeployRole"; type := "IAM::Role"; action := "ADD";
                properties := None |} in
  processResource exampleEnv exampleMap (netStack [res]) start res
  = {| rows := []; totalDelta := 0%Qc; pricedCount := 0; freeCount := 1;
       world := newWorld; thrown := None |}
  ∧ lookups exampleMap res = [].
Proof.
  intros res.
  apply (C6_free_resource_counted exampleEnv exampleMap (netStack [res]) start res).
  - reflexivity.
  - by apply (bool_decide_unpack _).
Defined.

(** C6, as stated, fails: a type that is in the free list and is also
    Unknown is skipped before the free list is read, and is not counted. *)
Lemma C6_counterexample :
  type unknownChange ∈ freeList exampleMap
  ∧ freeCount (processResource exampleEnv exampleMap (netStack [unknownChange])
                 start unknownChange) = freeCount start.
Proof. split; [by apply (bool_decide_unpack _) | reflexivity]. Qed.

Lemma unmapped_snoc (rs : list Row) (r : Row) :
  unmapped (rs ++ [r])
  = if bool_decide (delta r = None) then S (unmapped rs) else unmapped rs.
Proof.
  unfold unmapped. rewrite filter_app, length_app.
  rewrite filter_cons, filter_nil.
  case_bool_decide; case_decide; simpl; try done; lia.
Qed.




(** ** Deltas and the total *)

Lemma orZero_nullish (o : option Qc) : orZero o = nullish o.
Proof.
  destruct o as [q|]; [|done].
  unfold orZero, whenTruthy, truthyNum, nullish. cbn.
  by case_bool_decide.
Qed.

Lemma deltaOf_spec (beforeCost afterCost : option Qc) :
  deltaOf beforeCost afterCost = delta_spec beforeCost afterCost.
Proof.
  unfold deltaOf, delta_spec. rewrite !orZero_nullish.
  by destruct beforeCost, afterCost.
Qed.

Lemma foldr_Qcplus_acc (l : list Qc) (a : Qc) :
  foldr Qcplus a l = (foldr Qcplus 0 l + a)%Qc.
Proof.
  induction l as [|x l IH]; cbn.
  - by rewrite Qcplus_0_l.
  - rewrite IH. apply Qcplus_assoc.
Qed.

Lemma sumDeltas_snoc (rs : list Row) (r : Row) :
  sumDeltas (rs ++ [r])
  = match delta r with
    | Some d => (sumDeltas rs + d)%Qc
    | None => sumDeltas rs
    end.
Proof.
  unfold sumDeltas. rewrite omap_app, foldr_app. cbn.
  destruct (delta r) as [d|]; cbn; [|done].
  by rewrite foldr_Qcplus_acc, Qcplus_0_r.
Qed.

(** What one turn of the loop does to the rows and to the total: either
    nothing, or one row is appended whose delta follows [deltaOf] and is
    added to the total when it is not null. *)
Lemma processResource_rows env resourceMap stack st res :
  let st' := processResource env resourceMap stack st res in
  (rows st' = rows st ∧ totalDelta st' = totalDelta st)
  ∨ ∃ row, rows st' = rows st ++ [row]
           ∧ delta row = deltaOf (before row) (after row)
           ∧ totalDelta st' = match delta row with
                              | Some d => (totalDelta st + d)%Qc
                              | None => totalDelta st
                              end.
Proof.
  cbn zeta. unfold processResource.
  destruct (isSkipped res); [by left|].
  destruct (isFree resourceMap res); [by left|].
  destruct (prop_lookup (entries resourceMap) (type res)) as [mapping|].
  - destruct (priceResource env (world st) mapping res) as [[[b a] priced] w].
    right. by eexists.
  - destruct (holdsOther resourceMap (type res) && callsBuildFilters res); [by left|].
    right. by eexists.
Qed.

(** The total is the sum of the deltas of the rows that are not null. *)
Lemma mainLoop_total env diffData resourceMap :
  totalDelta (mainLoop env diffData resourceMap)
  = sumDeltas (rows (mainLoop env diffData resourceMap)).
Proof.
  apply (mainLoop_invariant env diffData resourceMap
           (λ st, totalDelta st = sumDeltas (rows st))).
  - done.
  - done.
  - intros st [stack res] Htotal. unfold step. cbn [fst snd].
    destruct (processResource_rows env resourceMap stack st res)
      as [[Hr Ht] | (row & Hr & Hd & Ht)].
    + by rewrite Hr, Ht.
    + by rewrite Hr, Ht, sumDeltas_snoc, Htotal.
Qed.

(** ** Costs of added and removed resources *)

Lemma processResource_mapped env resourceMap stack st res mapping :
  isSkipped res = false →
  isFree resourceMap res = false →
  prop_lookup (entries resourceMap) (type res) = Some mapping →
  processResource env resourceMap stack st res
  = let '(beforeCost, afterCost, priced, w) :=
      priceResource env (world st) mapping res in
    let row := pricedRow stack res mapping beforeCost afterCost in
    {| rows := rows st ++ [row];
       totalDelta := match delta row with
                     | Some d => (totalDelta st + d)%Qc
                     | None => totalDelta st
                     end;
       pricedCount := if priced then S (pricedCount st) else pricedCount st;
       freeCount := freeCount st;
       world := w; thrown := thrown st |}.
Proof. intros Hskip Hfree Hmap. unfold processResource. by rewrite Hskip, Hfree, Hmap. Qed.

Lemma whenTruthy_Some (h : Qc) : h ≠ 0%Qc → whenTruthy (Some h) = Some h.
Proof. intros Hh. unfold whenTruthy, truthyNum. by rewrite bool_decide_eq_false_2. Qed.

Lemma whenTruthy_noMultiplier (o : option Qc) : noMultiplier o → whenTruthy o = None.
Proof. intros [-> | ->]; [done|]. unfold whenTruthy, truthyNum. by rewrite bool_decide_eq_true_2. Qed.

(** C2, as amended: with a successful lookup, the row of an ADD has a null
    before and the monthly cost of the quoted price as after, the row of a
    REMOVE has a null after and that cost as before.  The monthly cost is
    the unit price times the hourly multiplier when it is present and not
    zero, else times the quantity multiplier when it is present and not
    zero, else the unit price itself. *)
Theorem C2_add_remove_cost env resourceMap stack st res mapping useNew price w :
  isSkipped res = false →
  isFree resourceMap res = false →
  prop_lookup (entries resourceMap) (type res) = Some mapping →
  (action res = "ADD" ∧ useNew = true) ∨ (action res = "REMOVE" ∧ useNew = false) →
  queryPrice env (world st) (serviceCode mapping)
             (buildFilters mapping (properties res) useNew) = (Some price, w) →
  (∃ row, rows (processResource env resourceMap stack st res) = rows st ++ [row]
          ∧ (action res = "ADD" →
             before row = None ∧ after row = Some (monthlyCost (usd price) mapping))
          ∧ (action res = "REMOVE" →
             after row = None ∧ before row = Some (monthlyCost (usd price) mapping)))
  ∧ (∀ h, monthlyHours mapping = Some h → h ≠ 0%Qc →
          monthlyCost (usd price) mapping = (usd price * h)%Qc)
  ∧ (∀ q, noMultiplier (monthlyHours mapping) →
          monthlyQuantity mapping = Some q → q ≠ 0%Qc →
          monthlyCost (usd price) mapping = (usd price * q)%Qc)
  ∧ (noMultiplier (monthlyHours mapping) → noMultiplier (monthlyQuantity mapping) →
     monthlyCost (usd price) mapping = usd price).
Proof.
  intros Hskip Hfree Hmap Hact Hquery. split.
  - rewrite (processResource_mapped _ _ _ _ _ _ Hskip Hfree Hmap).
    unfold priceResource.
    destruct Hact as [[Hact ->] | [Hact ->]]; rewrite Hact; cbn [bool_decide];
      rewrite ?bool_decide_eq_true_2 by done;
      rewrite ?(bool_decide_eq_false_2 ("REMOVE" = "ADD")) by done;
      rewrite Hquery; eexists; (split; [reflexivity|]); split; intros Heq;
      try discriminate; done.
  - unfold monthlyCost. repeat split.
    + intros h -> Hh. by rewrite whenTruthy_Some.
    + intros q Hh -> Hq. by rewrite (whenTruthy_noMultiplier _ Hh), whenTruthy_Some.
    + intros Hh Hq. by rewrite (whenTruthy_noMultiplier _ Hh), (whenTruthy_noMultiplier _ Hq).
Qed.

Lemma C2_add_remove_cost_witness :
  (∃ row, rows (processResource exampleEnv exampleMap (netStack [microChange])
                  start microChange) = rows start ++ [row]
          ∧ (action microChange = "ADD" →
             before row = None
             ∧ after row = Some (monthlyCost (usd microPrice) instanceRule))
          ∧ (action microChange = "REMOVE" →
             after row = None
             ∧ before row = Some (monthlyCost (usd microPrice) instanceRule)))
  ∧ (∀ h, monthlyHours instanceRule = Some h → h ≠ 0%Qc →
          monthlyCost (usd microPrice) instanceRule = (usd microPrice * h)%Qc)
  ∧ (∀ q, noMultiplier (monthlyHours instanceRule) →
          monthlyQuantity instanceRule = Some q → q ≠ 0%Qc →
          monthlyCost (usd microPrice) instanceRule = (usd microPrice * q)%Qc)
  ∧ (noMultiplier (monthlyHours instanceRule) →
     noMultiplier (monthlyQuantity instanceRule) →
     monthlyCost (usd microPrice) instanceRule = usd microPrice).
Proof.
  apply (C2_add_remove_cost exampleEnv exampleMap (netStack [microChange]) start
           microChange instanceRule true microPrice microWorld).
  - reflexivity.
  - reflexivity.
  - reflexivity.
  - left. split; reflexivity.
  - reflexivity.
Defined.

(** C2, as stated, fails: with an hourly multiplier that is present and
    zero, and no quantity multiplier, the after-cost of an ADD is the unit
    price, not the unit price times the multiplier. *)
Lemma C2_counterexample :
  prop_lookup (entries zeroHoursMap) (type spotChange) = Some zeroHoursRule
  ∧ monthlyHours zeroHoursRule = Some 0%Qc
  ∧ (queryPrice exampleEnv newWorld (serviceCode zeroHoursRule)
       (buildFilters zeroHoursRule (properties spotChange) true)).1 = Some microPrice
  ∧ after <$> rows (mainLoop exampleEnv (report [spotChange]) zeroHoursMap)
    = [Some (usd microPrice)]
  ∧ monthlyCost_spec (usd microPrice) zeroHoursRule = 0%Qc
  ∧ usd microPrice ≠ 0%Qc.
Proof.
  repeat split; try (vm_compute; reflexivity).
  - by apply Qc_is_canon.
  - by apply (bool_decide_unpack _).
Qed.

(** ** Filter resolution *)

Lemma usable_not_nullLike (v : option string) :
  ¬ nullLike v → usable v = true ∧ ∃ s, v = Some s.
Proof.
  intros Hv. unfold nullLike in Hv. destruct v as [s|]; [|tauto].
  split; [|by eexists]. unfold usable, truthy.
  rewrite !bool_decide_eq_false_2; [done|..]; intros Heq; apply Hv.
  - by right; right; right.
  - by right; right; left.
  - right; left. by f_equal.
Qed.

Lemma usable_nullLike (v : option string) : nullLike v → usable v = false.
Proof. by intros [-> | [-> | [-> | ->]]]. Qed.

Lemma resolveFilterValue_fromProperty valueDef properties useNew cf :
  vd_cfProperty valueDef = Some cf → cf ≠ EmptyString →
  resolveFilterValue valueDef properties useNew
  = if usable (directionalValue properties cf useNew)
    then directionalValue properties cf useNew
    else if truthy (vd_default valueDef) then vd_default valueDef else None.
Proof.
  intros Hcf Hne. unfold resolveFilterValue, directionalValue, usable.
  rewrite Hcf. cbn [truthy]. rewrite (bool_decide_eq_false_2 _ Hne).
  cbn [negb]. rewrite andb_false_r.
  by destruct (List.find _ _).
Qed.

Lemma buildFilters_loop_app fs1 fs2 properties useNew :
  buildFilters_loop (fs1 ++ fs2) properties useNew
  = buildFilters_loop fs1 properties useNew ++ buildFilters_loop fs2 properties useNew.
Proof.
  induction fs1 as [|f fs1 IH]; [done|]. cbn.
  destruct (resolveFilterValue _ _ _) as [value|]; [|done].
  case_bool_decide; [done|]. cbn. by rewrite IH.
Qed.

Lemma buildFilters_loop_values fs properties useNew :
  Forall (λ f, f_Value f ≠ EmptyString) (buildFilters_loop fs properties useNew).
Proof.
  induction fs as [|f fs IH]; cbn; [constructor|].
  destruct (resolveFilterValue _ _ _) as [value|]; [|done].
  case_bool_decide; [done|]. by constructor.
Qed.

(** C3: for a filter of a rule that takes its value from a property, in
    either direction: when the first property change of that name has a
    directional value that is not null-like, the query has the filter with
    that value; when there is no such property change or its value is
    null-like, the query has the filter with the default, if the rule gives
    one; and with no default the filter is left out of the query.  No
    filter of a query has an empty value. *)
Theorem C3_fromProperty_resolution mapping properties useNew pre filter post cf :
  filters mapping = pre ++ filter :: post →
  vd_cfProperty (Value filter) = Some cf →
  cf ≠ EmptyString →
  let v := directionalValue properties cf useNew in
  let d := vd_default (Value filter) in
  let query := buildFilters mapping properties useNew in
  let before_ := buildFilters_loop pre properties useNew in
  let after_ := buildFilters_loop post properties useNew in
  (¬ nullLike v →
   ∃ s, v = Some s
        ∧ resolveFilterValue (Value filter) properties useNew = Some s
        ∧ query = before_ ++ {| f_Field := Field filter; f_Value := s |} :: after_)
  ∧ (nullLike v → ∀ s, d = Some s → s ≠ EmptyString →
     resolveFilterValue (Value filter) properties useNew = Some s
     ∧ query = before_ ++ {| f_Field := Field filter; f_Value := s |} :: after_)
  ∧ (nullLike v → d = None ∨ d = Some EmptyString →
     resolveFilterValue (Value filter) properties useNew = None
     ∧ query = before_ ++ after_)
  ∧ Forall (λ f, f_Value f ≠ EmptyString) query.
Proof.
  intros Hfs Hcf Hne v d query before_ after_.
  assert (Forall (λ f, f_Value f ≠ EmptyString) query) as Hvalues
    by apply buildFilters_loop_values.
  revert Hvalues. subst query before_ after_. unfold buildFilters.
  rewrite Hfs, buildFilters_loop_app. cbn [buildFilters_loop].
  rewrite (resolveFilterValue_fromProperty _ _ _ _ Hcf Hne).
  fold v. fold d. intros Hvalues.
  split; [|split; [|split]].
  - intros Hv. destruct (usable_not_nullLike v Hv) as [Hu [s Hs]].
    exists s. rewrite Hu, Hs. split; [done|]. split; [done|].
    assert (s ≠ EmptyString) as Hs'.
    { intros ->. apply Hv. right; left. done. }
    by rewrite (bool_decide_eq_false_2 _ Hs').
  - intros Hv s Hd Hs. rewrite (usable_nullLike v Hv), Hd. cbn [truthy].
    rewrite (bool_decide_eq_false_2 _ Hs). cbn [negb].
    by rewrite (bool_decide_eq_false_2 _ Hs).
  - intros Hv Hd. rewrite (usable_nullLike v Hv).
    by destruct Hd as [-> | ->].
  - exact Hvalues.
Qed.

Lemma C3_fromProperty_resolution_witness :
  let v := directionalValue volumeProperties "VolumeType" true in
  let d := vd_default (Value volumeFilter) in
  let query := buildFilters volumeRule volumeProperties true in
  let before_ := buildFilters_loop [] volumeProperties true in
  let after_ := buildFilters_loop [] volumeProperties true in
  (¬ nullLike v →
   ∃ s, v = Some s
        ∧ resolveFilterValue (Value volumeFilter) volumeProperties true = Some s
        ∧ query = before_ ++ {| f_Field := Field volumeFilter; f_Value := s |} :: after_)
  ∧ (nullLike v → ∀ s, d = Some s → s ≠ EmptyString →
     resolveFilterValue (Value volumeFilter) volumeProperties true = Some s
     ∧ query = before_ ++ {| f_Field := Field volumeFilter; f_Value := s |} :: after_)
  ∧ (nullLike v → d = None ∨ d = Some EmptyString →
     resolveFilterValue (Value volumeFilter) volumeProperties true = None
     ∧ query = before_ ++ after_)
  ∧ Forall (λ f, f_Value f ≠ EmptyString) query.
Proof.
  apply (C3_fromProperty_resolution volumeRule volumeProperties true [] volumeFilter []
           "VolumeType").
  - reflexivity.
  - reflexivity.
  - by apply (bool_decide_unpack _).
Defined.

(** ** The detail of an UPDATE *)

Lemma changeDetail_cons f fs properties :
  (∃ o n, definingChange properties f o n
          ∧ changeDetail (f :: fs) properties = o +:+ " → " +:+ n)
  ∨ ((∀ o n, ¬ definingChange properties f o n)
     ∧ changeDetail (f :: fs) properties = changeDetail fs properties).
Proof.
  cbn [changeDetail].
  destruct (vd_cfProperty (Value f)) as [cf|] eqn:Hcf;
    [|right; split; [intros o n (cf' & ? & _); congruence | done]].
  case_bool_decide as Hne;
    [right; split; [intros o n (cf' & ? & ? & _); congruence | done]|].
  destruct (List.find _ _) as [prop|] eqn:Hfind;
    [|right; split; [|done]; intros o n (cf' & Hcf' & _ & Ho & _);
      unfold directionalValue in Ho; simplify_eq; by rewrite Hfind in Ho].
  destruct (truthy (oldValue prop) && truthy (newValue prop)
            && negb (bool_decide (oldValue prop = newValue prop))) eqn:Htest.
  - left.
    apply andb_prop in Htest as [Htest Hdiff]. apply andb_prop in Htest as [Ho Hn].
    destruct (oldValue prop) as [o|] eqn:Hold; [|done].
    destruct (newValue prop) as [n|] eqn:Hnew; [|done].
    cbn in Ho, Hn. apply negb_true_iff, bool_decide_eq_false in Ho, Hn, Hdiff.
    exists o, n. split.
    + exists cf. unfold directionalValue. rewrite Hfind. cbn. rewrite Hold, Hnew.
      repeat split; try done. congruence.
    + cbn. by rewrite !bool_decide_eq_false_2.
  - right. split; [|done].
    intros o n (cf' & Hcf' & _ & Ho & Hn & Ho' & Hn' & Hon).
    unfold directionalValue in Ho, Hn. simplify_eq. rewrite Hfind in Ho, Hn.
    cbn in Ho, Hn. rewrite Ho, Hn in Htest. cbn in Htest.
    rewrite !bool_decide_eq_false_2 in Htest; [done|congruence|done|done].
Qed.

Lemma changeDetail_first fs properties :
  (∃ pre f post o n,
     fs = pre ++ f :: post
     ∧ (∀ g o' n', g ∈ pre → ¬ definingChange properties g o' n')
     ∧ definingChange properties f o n
     ∧ changeDetail fs properties = o +:+ " → " +:+ n)
  ∨ ((∀ g o' n', g ∈ fs → ¬ definingChange properties g o' n')
     ∧ changeDetail fs properties = EmptyString).
Proof.
  induction fs as [|f fs IH].
  - right. split; [|done]. intros g o n Hg. by apply elem_of_nil in Hg.
  - destruct (changeDetail_cons f fs properties) as [(o & n & Hf & Hd) | [Hf Hd]].
    + left. exists [], f, fs, o, n. repeat split; try done.
      intros g o' n' Hg. by apply elem_of_nil in Hg.
    + rewrite Hd.
      destruct IH as [(pre & g & post & o & n & -> & Hpre & Hg & Hdetail) | [Hall Hdetail]].
      * left. exists (f :: pre), g, post, o, n. repeat split; try done.
        intros h o' n' [-> | Hh]%elem_of_cons; [apply Hf | by apply Hpre].
      * right. split; [|done].
        intros h o' n' [-> | Hh]%elem_of_cons; [apply Hf | by apply Hall].
Qed.

(** C9: the row of an UPDATE has as detail the text "old → new" of the
    first filter of the rule of its type, in the order of the rule, that
    takes its value from a property whose change has an old and a new value
    that differ; when the rule has no such filter, or the type has no rule,
    the detail is empty.  Every UPDATE that is neither skipped nor free has
    such a row, unless its turn throws: then no row is pushed and nothing
    else changes. *)
Theorem C9_update_detail env resourceMap stack st res :
  isSkipped res = false →
  isFree resourceMap res = false →
  action res = "UPDATE" →
  let fs := default [] (filters <$> prop_lookup (entries resourceMap) (type res)) in
  if throws resourceMap res
  then processResource env resourceMap stack st res
       = setThrown (Some (notIterable env)) st
  else
    ∃ row,
      rows (processResource env resourceMap stack st res) = rows st ++ [row]
      ∧ ((∃ pre f post o n,
            fs = pre ++ f :: post
            ∧ (∀ g o' n', g ∈ pre → ¬ definingChange (properties res) g o' n')
            ∧ definingChange (properties res) f o n
            ∧ r_detail row = o +:+ " → " +:+ n)
         ∨ ((∀ g o' n', g ∈ fs → ¬ definingChange (properties res) g o' n')
            ∧ r_detail row = EmptyString)).
Proof.
  intros Hskip Hfree Hact fs. subst fs.
  destruct (throws resourceMap res) eqn:Hthrows.
  { by apply (step_throws env resourceMap st (stack, res)). }
  destruct (prop_lookup (entries resourceMap) (type res)) as [mapping|] eqn:Hmap.
  - rewrite (processResource_mapped _ _ _ _ _ _ Hskip Hfree Hmap).
    destruct (priceResource env (world st) mapping res) as [[[b a] priced] w].
    eexists. split; [reflexivity|].
    cbn [r_detail pricedRow]. rewrite Hact.
    rewrite bool_decide_eq_true_2 by done.
    apply changeDetail_first.
  - unfold throws in Hthrows. rewrite Hskip, Hfree, Hmap in Hthrows.
    cbn [negb andb] in Hthrows.
    unfold processResource. rewrite Hskip, Hfree, Hmap, Hthrows.
    eexists. split; [reflexivity|].
    right. split; [|done]. intros g o n Hg. by apply elem_of_nil in Hg.
Qed.

Lemma C9_update_detail_witness :
  let res := instanceChange "Web" "UPDATE" (Some "small") (Some "large") in
  let fs := default [] (filters <$> prop_lookup (entries exampleMap) (type res)) in
  ∃ row,
    rows (processResource exampleEnv exampleMap (netStack [res]) start res)
    = rows start ++ [row]
    ∧ ((∃ pre f post o n,
          fs = pre ++ f :: post
          ∧ (∀ g o' n', g ∈ pre → ¬ definingChange (properties res) g o' n')
          ∧ definingChange (properties res) f o n
          ∧ r_detail row = o +:+ " → " +:+ n)
       ∨ ((∀ g o' n', g ∈ fs → ¬ definingChange (properties res) g o' n')
          ∧ r_detail row = EmptyString)).
Proof.
  intros res.
  apply (C9_update_detail exampleEnv exampleMap (netStack [res]) start res);
    reflexivity.
Defined.

(** The second scenario of the specification: an UPDATE from small to
    large at 0.05 and 0.20 an hour, 730 hours a month. *)
Example update_scenario :
  let res := instanceChange "Web" "UPDATE" (Some "small") (Some "large") in
  (λ r, (r_detail r, before r, after r, delta r))
    <$> rows (mainLoop exampleEnv (report [res]) exampleMap)
  = [ ("small → large",
       Some (Q2Qc (5 # 100) * Q2Qc 730)%Qc,
       Some (Q2Qc (20 # 100) * Q2Qc 730)%Qc,
       Some (Q2Qc (20 # 100) * Q2Qc 730 - Q2Qc (5 # 100) * Q2Qc 730)%Qc) ]
  ∧ (Q2Qc (5 # 100) * Q2Qc 730 = Q2Qc (365 # 10))%Qc
  ∧ (Q2Qc (20 # 100) * Q2Qc 730 - Q2Qc (5 # 100) * Q2Qc 730 = Q2Qc (1095 # 10))%Qc.
Proof.
  split; [apply (bool_decide_unpack _); vm_compute; reflexivity|].
  split; by apply Qc_is_canon.
Qed.

(** ** Quotes *)

Lemma firstSome_app {A B} (f : A → option B) (l1 l2 : list A) :
  firstSome f (l1 ++ l2)
  = match firstSome f l1 with
    | Some y => Some y
    | None => firstSome f l2
    end.
Proof.
  induction l1 as [|x l1 IH]; [done|]. cbn. by destruct (f x).
Qed.

Lemma firstSome_Some {A B} (f : A → option B) (l : list A) (y : B) :
  firstSome f l = Some y →
  ∃ pre x post, l = pre ++ x :: post ∧ (∀ x', x' ∈ pre → f x' = None) ∧ f x = Some y.
Proof.
  induction l as [|x l IH]; [done|]. cbn.
  destruct (f x) as [y'|] eqn:Hfx.
  - intros [= ->]. exists [], x, l. repeat split; [|done].
    intros x' Hx'. by apply elem_of_nil in Hx'.
  - intros (pre & x0 & post & -> & Hpre & Hx0)%IH.
    exists (x :: pre), x0, post. repeat split; [|done].
    intros x' [-> | Hx']%elem_of_cons; [done | by apply Hpre].
Qed.


Lemma scanDimensions_firstSome env dims :
  scanDimensions env dims = firstSome (dimensionPrice env) (snd <$> dims).
Proof.
  induction dims as [|[k d] dims IH]; [done|]. cbn.
  by destruct (dimensionPrice env d).
Qed.

Lemma scanOffers_firstSome env product onDemand :
  OnDemand product = Some onDemand →
  scanOffers env onDemand = firstSome (dimensionPrice env) (productDimensions product).
Proof.
  intros Hod. unfold productDimensions. rewrite Hod. cbn [default from_option id]. clear Hod.
  induction onDemand as [|[k offer] onDemand IH]; [done|].
  rewrite bind_cons, firstSome_app. cbn [scanOffers snd].
  destruct (priceDimensions offer) as [dims|]; cbn [default from_option id fmap list_fmap].
  - rewrite <- scanDimensions_firstSome. by destruct (scanDimensions env dims).
  - done.
Qed.

Lemma dimensionPrice_Some env d q :
  dimensionPrice env d = Some q →
  (0 < usd q)%Qc ∧ parseFloat env (orElse (pricePerUnit_USD d) "0") = Some (usd q).
Proof.
  unfold dimensionPrice.
  destruct (parseFloat env _) as [p|]; [|done].
  case_bool_decide; [|done]. by intros [= <-].
Qed.

Lemma dimensionPrice_None env d :
  dimensionPrice env d = None ↔ ¬ positiveDimension env d.
Proof.
  unfold dimensionPrice, positiveDimension.
  destruct (parseFloat env _) as [p|].
  - case_bool_decide as Hp; split; try done.
    + intros Hno. destruct Hno. by exists p.
    + intros _ (p' & [= <-] & Hp'). done.
  - split; [|done]. by intros _ (p & ? & _).
Qed.

Lemma quoteOf_Some env resp q :
  quoteOf env resp = Some q →
  ∃ product rest pre d post,
    resp = SendOk (Some (ProductJson product :: rest))
    ∧ productDimensions product = pre ++ d :: post
    ∧ (∀ d', d' ∈ pre → ¬ positiveDimension env d')
    ∧ dimensionPrice env d = Some q.
Proof.
  destruct resp as [m | [[|[|product] rest]|]]; try done. cbn.
  destruct (OnDemand product) as [onDemand|] eqn:Hod; [|done].
  rewrite (scanOffers_firstSome env product onDemand Hod).
  intros (pre & d & post & Hdims & Hpre & Hd)%firstSome_Some.
  exists product, rest, pre, d, post. repeat split; try done.
  intros d' Hd'. by apply dimensionPrice_None, Hpre.
Qed.

Lemma quoteOf_positive env resp q : quoteOf env resp = Some q → (0 < usd q)%Qc.
Proof.
  intros (product & rest & pre & d & post & _ & _ & _ & Hd)%quoteOf_Some.
  by apply dimensionPrice_Some in Hd as [? _].
Qed.

Lemma queryPrice_cachePositive env w serviceCode filters :
  cachePositive w →
  cachePositive (queryPrice env w serviceCode filters).2
  ∧ ∀ q, (queryPrice env w serviceCode filters).1 = Some q → (0 < usd q)%Qc.
Proof.
  intros Hw. unfold queryPrice.
  destruct (priceCache w !! cacheKey env serviceCode filters) as [cached|] eqn:Hkey;
    cbn [fst snd].
  - split; [done|]. intros q ->. by eapply Hw.
  - split; [|intros q; apply quoteOf_positive].
    intros k e. cbn [priceCache]. rewrite lookup_insert.
    case_decide; [|apply Hw]. intros [= He]. by eapply quoteOf_positive.
Qed.





(** ** The price cache *)


Lemma queryPrice_hit env w serviceCode filters cached :
  priceCache w !! cacheKey env serviceCode filters = Some cached →
  queryPrice env w serviceCode filters = (cached, w).
Proof. intros Hkey. unfold queryPrice. by rewrite Hkey. Qed.

Lemma queryPrice_cached env w serviceCode filters :
  priceCache (queryPrice env w serviceCode filters).2
    !! cacheKey env serviceCode filters
  = Some (queryPrice env w serviceCode filters).1.
Proof.
  unfold queryPrice.
  destruct (priceCache w !! cacheKey env serviceCode filters) as [cached|] eqn:Hkey;
    cbn [fst snd priceCache]; [done|].
  apply lookup_insert_eq.
Qed.

Lemma queryPrice_keeps env w serviceCode filters k v :
  priceCache w !! k = Some v →
  priceCache (queryPrice env w serviceCode filters).2 !! k = Some v.
Proof.
  intros Hk. unfold queryPrice.
  destruct (priceCache w !! cacheKey env serviceCode filters) as [cached|] eqn:Hkey;
    cbn [fst snd priceCache]; [done|].
  rewrite lookup_insert_ne; [done|]. intros <-. congruence.
Qed.

Lemma lookupAll_keeps env w ls k v :
  priceCache w !! k = Some v → priceCache (lookupAll env w ls) !! k = Some v.
Proof.
  unfold lookupAll. revert w. induction ls as [|l ls IH]; intros w Hk; [done|].
  cbn [foldl]. by apply IH, queryPrice_keeps.
Qed.





(** The world of a run is the world after its lookups. *)
Lemma processResource_world env resourceMap stack st res :
  world (processResource env resourceMap stack st res)
  = lookupAll env (world st) (lookups resourceMap res).
Proof.
  unfold processResource, lookups.
  destruct (isSkipped res); [done|].
  destruct (isFree resourceMap res); [done|]. cbn [orb].
  destruct (prop_lookup (entries resourceMap) (type res)) as [mapping|];
    [|by destruct (holdsOther resourceMap (type res) && callsBuildFilters res)].
  unfold priceResource, lookupAll.
  repeat case_bool_decide; cbn [foldl fst snd];
    repeat match goal with
           | |- context [queryPrice ?e ?w ?s ?f] =>
               destruct (queryPrice e w s f) as [[?|] ?]; cbn [fst snd]
           end; done.
Qed.

Lemma lookupAll_app env w ls1 ls2 :
  lookupAll env w (ls1 ++ ls2) = lookupAll env (lookupAll env w ls1) ls2.
Proof. apply foldl_app. Qed.

Lemma mainLoop_world env diffData resourceMap :
  world (mainLoop env diffData resourceMap)
  = lookupAll env newWorld (runLookups resourceMap diffData).
Proof.
  rewrite mainLoop_work. cbn [world setThrown]. unfold runLookups.
  change newWorld with (world start). generalize start.
  induction (visited resourceMap diffData) as [|[stack res] ws IH]; intros st; [done|].
  rewrite bind_cons, lookupAll_app. cbn [foldl]. rewrite IH. f_equal.
  apply processResource_world.
Qed.

(** ** The cache key *)

Lemma byteCompare_le (a b : string) : (byteCompare a b ≤ 0)%Z ↔ String.le a b.
Proof.
  unfold byteCompare, String.le, String.leb.
  destruct (String.compare a b); cbn; split; (done || lia).
Qed.

Lemma caseBlindCompare_total (a b : string) :
  (caseBlindCompare a b ≤ 0 ∨ caseBlindCompare b a ≤ 0)%Z.
Proof. unfold caseBlindCompare. rewrite !byteCompare_le. apply total, _. Qed.

Lemma caseBlindCompare_trans (a b c : string) :
  (caseBlindCompare a b ≤ 0 → caseBlindCompare b c ≤ 0 → caseBlindCompare a c ≤ 0)%Z.
Proof. unfold caseBlindCompare. rewrite !byteCompare_le. apply transitivity. Qed.

(** The comparison takes two different texts as equal. *)
Example caseBlindCompare_not_antisymmetric :
  caseBlindCompare "Tenancy" "tenancy" = 0%Z ∧ caseBlindCompare "tenancy" "Tenancy" = 0%Z.
Proof. split; reflexivity. Qed.

Lemma string_app_assoc (a b c : string) : (a +:+ b) +:+ c = a +:+ (b +:+ c).
Proof.
  induction a as [|x a IH]; [done|].
  change (String x ((a +:+ b) +:+ c) = String x (a +:+ (b +:+ c))). by rewrite IH.
Qed.









Lemma sort_insert_Permutation env f l : sort_insert env f l ≡ₚ f :: l.
Proof.
  induction l as [|g l IH]; [done|]. cbn.
  destruct (_ <=? _)%Z; [done|]. by rewrite IH, Permutation_swap.
Qed.

Lemma sortFilters_Permutation env l : sortFilters env l ≡ₚ l.
Proof.
  induction l as [|f l IH]; [done|].
  unfold sortFilters in *. cbn. by rewrite sort_insert_Permutation, IH.
Qed.

Lemma sort_insert_sorted env f l :
  (∀ a b, (localeCompare env a b ≤ 0 ∨ localeCompare env b a ≤ 0)%Z) →
  (∀ a b c, (localeCompare env a b ≤ 0 → localeCompare env b c ≤ 0 →
             localeCompare env a c ≤ 0)%Z) →
  StronglySorted (fieldOrder env) l →
  StronglySorted (fieldOrder env) (sort_insert env f l).
Proof.
  intros Htotal Htrans. induction 1 as [|g l Hl IH Hg]; cbn.
  - by repeat constructor.
  - destruct (Z.leb_spec (localeCompare env (f_Field f) (f_Field g)) 0) as [Hle | Hgt].
    + constructor; [by constructor|]. constructor; [done|].
      eapply Forall_impl; [exact Hg|]. intros h Hh. by eapply Htrans.
    + constructor; [done|].
      rewrite sort_insert_Permutation. constructor; [|done].
      unfold fieldOrder. destruct (Htotal (f_Field f) (f_Field g)); [lia | done].
Qed.

Lemma sortFilters_sorted env l :
  (∀ a b, (localeCompare env a b ≤ 0 ∨ localeCompare env b a ≤ 0)%Z) →
  (∀ a b c, (localeCompare env a b ≤ 0 → localeCompare env b c ≤ 0 →
             localeCompare env a c ≤ 0)%Z) →
  StronglySorted (fieldOrder env) (sortFilters env l).
Proof.
  intros Htotal Htrans. induction l as [|f l IH]; [constructor|].
  by apply sort_insert_sorted.
Qed.

(** The key is canonical: when the comparison of field names is a total
    order on the fields in use, and no two of the filters have the same
    field, the order in which the filters are given does not matter. *)
Lemma cacheKey_permutation env serviceCode l1 l2 :
  (∀ a b, (localeCompare env a b ≤ 0 ∨ localeCompare env b a ≤ 0)%Z) →
  (∀ a b c, (localeCompare env a b ≤ 0 → localeCompare env b c ≤ 0 →
             localeCompare env a c ≤ 0)%Z) →
  (∀ f g, f ∈ l1 → g ∈ l1 → fieldOrder env f g → fieldOrder env g f → f = g) →
  l1 ≡ₚ l2 →
  cacheKey env serviceCode l1 = cacheKey env serviceCode l2.
Proof.
  intros Htotal Htrans Hantisym Hperm. unfold cacheKey.
  enough (sortFilters env l1 = sortFilters env l2) as -> by done.
  apply (StronglySorted_unique_strong (fieldOrder env)).
  - intros f g Hf Hg. rewrite sortFilters_Permutation in Hf, Hg.
    rewrite <- Hperm in Hg. by apply Hantisym.
  - by apply sortFilters_sorted.
  - by apply sortFilters_sorted.
  - by rewrite !sortFilters_Permutation.
Qed.

(** ** What the cache holds *)





(** ** Failures *)

Lemma billable_cons resourceMap sr (ws : list (Stack * Resource)) :
  filter (λ sr, isSkipped sr.2 = false ∧ isFree resourceMap sr.2 = false) (sr :: ws)
  = if isSkipped sr.2 || isFree resourceMap sr.2
    then filter (λ sr, isSkipped sr.2 = false ∧ isFree resourceMap sr.2 = false) ws
    else sr :: filter (λ sr, isSkipped sr.2 = false ∧ isFree resourceMap sr.2 = false) ws.
Proof.
  rewrite filter_cons.
  destruct (isSkipped sr.2), (isFree resourceMap sr.2); cbn [orb];
    case_decide as H; try done; try (by destruct H); by destruct H.
Qed.

(** One turn of the loop that does not throw appends at most one row:
    none for a resource change that is skipped or free, else one row for
    it. *)
Lemma step_rows env resourceMap st sr :
  throws resourceMap sr.2 = false →
  if isSkipped sr.2 || isFree resourceMap sr.2
  then rows (step env resourceMap st sr) = rows st
  else ∃ row, rows (step env resourceMap st sr) = rows st ++ [row]
              ∧ rowIdentity row = resourceIdentity sr.
Proof.
  destruct sr as [stack res]. unfold throws, step, processResource. cbn [fst snd].
  destruct (isSkipped res); [done|].
  destruct (isFree resourceMap res); [done|]. cbn [orb negb andb].
  destruct (prop_lookup (entries resourceMap) (type res)) as [mapping|].
  - intros _. destruct (priceResource env (world st) mapping res) as [[[b a] priced] w].
    by eexists.
  - intros ->. by eexists.
Qed.

Lemma run_rows env resourceMap ws st :
  Forall (λ sr, throws resourceMap sr.2 = false) ws →
  ∃ more, rows (foldl (step env resourceMap) st ws) = rows st ++ more
          ∧ rowIdentity <$> more
            = resourceIdentity
                <$> filter (λ sr, isSkipped sr.2 = false ∧ isFree resourceMap sr.2 = false) ws.
Proof.
  intros Hws. revert st. induction Hws as [|sr ws Hsr Hws IH]; intros st.
  - exists []. by rewrite app_nil_r.
  - cbn [foldl]. rewrite billable_cons.
    destruct (IH (step env resourceMap st sr)) as (more & Hmore & Hid).
    pose proof (step_rows env resourceMap st sr Hsr) as Hstep.
    destruct (isSkipped sr.2 || isFree resourceMap sr.2).
    + exists more. by rewrite Hmore, Hstep.
    + destruct Hstep as (row & Hrow & Hrowid).
      exists (row :: more). rewrite Hmore, Hrow, <- app_assoc.
      split; [done|]. by rewrite !fmap_cons, Hrowid, Hid.
Qed.

Lemma mainLoop_rows env diffData resourceMap :
  rows (mainLoop env diffData resourceMap)
  = rows (foldl (step env resourceMap) start (visited resourceMap diffData)).
Proof. by rewrite mainLoop_work. Qed.

(** ** Rows and quotes *)

Lemma step_keeps env resourceMap st sr k v :
  priceCache (world st) !! k = Some v →
  priceCache (world (step env resourceMap st sr)) !! k = Some v.
Proof.
  intros Hk. unfold step. rewrite processResource_world. by apply lookupAll_keeps.
Qed.

Lemma run_keeps env resourceMap ws st k v :
  priceCache (world st) !! k = Some v →
  priceCache (world (foldl (step env resourceMap) st ws)) !! k = Some v.
Proof.
  revert st. induction ws as [|sr ws IH]; intros st Hk; [done|].
  cbn [foldl]. by apply IH, step_keeps.
Qed.

Lemma rowOf_keeps env resourceMap w w' sr row :
  (∀ k v, priceCache w !! k = Some v → priceCache w' !! k = Some v) →
  rowOf env resourceMap w sr row → rowOf env resourceMap w' sr row.
Proof.
  intros Hkeeps (Hid & Hdelta & Hcosts). split; [done|]. split; [done|].
  destruct (prop_lookup (entries resourceMap) (type sr.2)) as [mapping|]; [|done].
  destruct Hcosts as (Hadd & Hrem & Hupd & Hother). unfold cachedQuote in *.
  split; [|split; [|split; [|done]]].
  - intros Hact. destruct (Hadd Hact) as (Hb & q & Hq & Ha).
    split; [done|]. exists q. split; [by apply Hkeeps | done].
  - intros Hact. destruct (Hrem Hact) as (Ha & q & Hq & Hb).
    split; [done|]. exists q. split; [by apply Hkeeps | done].
  - intros Hact. destruct (Hupd Hact) as (q & q' & Hq & Hq' & Hb & Ha).
    exists q, q'. split; [by apply Hkeeps|]. split; [by apply Hkeeps | done].
Qed.

Lemma priceResource_costs env w mapping res :
  let '(beforeCost, afterCost, priced, w') := priceResource env w mapping res in
  ∀ row, before row = beforeCost → after row = afterCost →
         costsFromQuotes env w' mapping res row.
Proof.
  unfold priceResource, costsFromQuotes, cachedQuote, callsBuildFilters.
  case_bool_decide as Hadd; [|case_bool_decide as Hrem; [|case_bool_decide as Hupd]].
  - pose proof (queryPrice_cached env w (serviceCode mapping)
                  (buildFilters mapping (properties res) true)) as Hc.
    destruct (queryPrice env w _ _) as [q w1]. cbn [fst snd] in Hc.
    destruct q as [p|]; intros row Hb Ha;
      (split; [intros _; split; [done|]; eexists; split; [exact Hc | done]|]);
      (split; [intros Hact; congruence|]);
      (split; [intros Hact; congruence|]); cbn; done.
  - pose proof (queryPrice_cached env w (serviceCode mapping)
                  (buildFilters mapping (properties res) false)) as Hc.
    destruct (queryPrice env w _ _) as [q w1]. cbn [fst snd] in Hc.
    destruct q as [p|]; intros row Hb Ha;
      (split; [intros Hact; congruence|]);
      (split; [intros _; split; [done|]; eexists; split; [exact Hc | done]|]);
      (split; [intros Hact; congruence|]); cbn; done.
  - pose proof (queryPrice_cached env w (serviceCode mapping)
                  (buildFilters mapping (properties res) false)) as Hc.
    destruct (queryPrice env w _ _) as [q w1]. cbn [fst snd] in Hc.
    pose proof (queryPrice_keeps env w1 (serviceCode mapping)
                  (buildFilters mapping (properties res) true) _ _ Hc) as Hc1.
    pose proof (queryPrice_cached env w1 (serviceCode mapping)
                  (buildFilters mapping (properties res) true)) as Hc2.
    destruct (queryPrice env w1 _ _) as [q' w2]. cbn [fst snd] in Hc1, Hc2.
    intros row Hb Ha.
    split; [intros Hact; congruence|].
    split; [intros Hact; congruence|].
    split; [intros _; by exists q, q'|]. cbn. done.
  - intros row Hb Ha.
    split; [intros Hact; congruence|].
    split; [intros Hact; congruence|].
    split; [intros Hact; congruence|]. done.
Qed.

(** The turn of a resource change that gets a row: the row is that of
    the resource change, given the cache after the turn. *)
Lemma step_rowOf env resourceMap st sr :
  throws resourceMap sr.2 = false →
  isSkipped sr.2 = false →
  isFree resourceMap sr.2 = false →
  ∃ row, rows (step env resourceMap st sr) = rows st ++ [row]
         ∧ rowOf env resourceMap (world (step env resourceMap st sr)) sr row.
Proof.
  destruct sr as [stack res]. unfold throws, step, processResource, rowOf.
  cbn [fst snd]. intros Hthrows Hskip Hfree. rewrite Hskip, Hfree in Hthrows |- *.
  cbn [negb andb] in Hthrows.
  destruct (prop_lookup (entries resourceMap) (type res)) as [mapping|].
  - pose proof (priceResource_costs env (world st) mapping res) as Hcosts.
    destruct (priceResource env (world st) mapping res) as [[[b a] priced] w].
    eexists. split; [reflexivity|]. cbn [world].
    split; [done|]. split; [apply deltaOf_spec|]. by apply Hcosts.
  - rewrite Hthrows. eexists. split; [reflexivity|]. done.
Qed.

Lemma run_rowOf env resourceMap ws st :
  Forall (λ sr, throws resourceMap sr.2 = false) ws →
  ∃ more,
    rows (foldl (step env resourceMap) st ws) = rows st ++ more
    ∧ Forall2 (rowOf env resourceMap (world (foldl (step env resourceMap) st ws)))
        (filter (λ sr, isSkipped sr.2 = false ∧ isFree resourceMap sr.2 = false) ws)
        more.
Proof.
  intros Hws. revert st. induction Hws as [|sr ws Hsr Hws IH]; intros st.
  - exists []. split; [by rewrite app_nil_r | constructor].
  - cbn [foldl]. rewrite billable_cons.
    destruct (IH (step env resourceMap st sr)) as (more & Hmore & Hrows).
    destruct (isSkipped sr.2) eqn:Hskip; cbn [orb].
    { exists more. split; [|done]. rewrite Hmore. f_equal.
      unfold step, processResource. by rewrite Hskip. }
    destruct (isFree resourceMap sr.2) eqn:Hfree.
    { exists more. split; [|done]. rewrite Hmore. f_equal.
      unfold step, processResource. by rewrite Hskip, Hfree. }
    destruct (step_rowOf env resourceMap st sr Hsr Hskip Hfree) as (row & Hrow & Hof).
    exists (row :: more). rewrite Hmore, Hrow, <- app_assoc.
    split; [done|]. constructor; [|done].
    eapply rowOf_keeps; [|exact Hof]. intros k v. apply run_keeps.
Qed.

(** The rows of a run are the rows of its resource changes that are
    neither skipped nor free, in order, each with the costs of the quotes
    of its lookups. *)
Lemma mainLoop_rowOf env diffData resourceMap :
  Forall2 (rowOf env resourceMap (world (mainLoop env diffData resourceMap)))
          (billable resourceMap diffData)
          (rows (mainLoop env diffData resourceMap)).
Proof.
  rewrite mainLoop_work. cbn [world rows setThrown]. unfold billable, visited.
  destruct (run_rowOf env resourceMap (completed resourceMap (work diffData)) start
              (completed_no_throw _ _)) as (more & Hmore & Hrows).
  by rewrite Hmore.
Qed.

(** C1: in every run, the rows are those of the resource changes that are
    neither skipped nor free, in order.  The costs of the row of a
    resource change whose type has a rule are the monthly costs of the
    quotes of its lookups, null where a lookup gave no quote; its delta is
    null when neither cost was priced and is (after ?? 0) - (before ?? 0)
    otherwise; and the total is the sum of the deltas of the rows that are
    not null. *)
Theorem C1_delta_and_total env diffData resourceMap :
  Forall2 (rowOf env resourceMap (world (mainLoop env diffData resourceMap)))
          (billable resourceMap diffData)
          (rows (mainLoop env diffData resourceMap))
  ∧ Forall (λ r, delta r = delta_spec (before r) (after r))
           (rows (mainLoop env diffData resourceMap))
  ∧ totalDelta (mainLoop env diffData resourceMap)
    = sumDeltas (rows (mainLoop env diffData resourceMap)).
Proof.
  pose proof (mainLoop_rowOf env diffData resourceMap) as Hrows.
  split; [exact Hrows|]. split; [|apply mainLoop_total].
  apply Forall2_Forall_r with (Q := λ r, delta r = delta_spec (before r) (after r))
    in Hrows; [done|].
  apply Forall_forall. by intros sr _ row (_ & Hdelta & _).
Qed.

(** ** Failures *)






Lemma main_ends env diffData resourceMap :
  main env diffData resourceMap
  = if aborts resourceMap diffData then Threw (notIterable env)
    else Printed (buildMarkdown env resourceMap (mainLoop env diffData resourceMap)).
Proof.
  unfold main. rewrite mainLoop_thrown. by destruct (aborts resourceMap diffData).
Qed.




(** During an outage for the key of the micro instance type, the resource
    change that needs it is unpriced and the other is priced as before. *)
Example outage_scenario :
  let diffData := report [microChange; resizeChange] in
  let run := mainLoop (withService exampleEnv (outage microKey)) diffData exampleMap in
  delta <$> rows run
  = [ None; Some (Q2Qc (20 # 100) * Q2Qc 730 - Q2Qc (5 # 100) * Q2Qc 730)%Qc ]
  ∧ pricedCount run = 1
  ∧ unmapped (rows run) = 1
  ∧ error (estimate_cost (withService exampleEnv (outage microKey))
             (ParseOk diffData) (ParseOk exampleMap)) = None.
Proof.
  split; [apply (bool_decide_unpack _); vm_compute; reflexivity|].
  repeat split; vm_compute; reflexivity.
Qed.

(** ** Scenarios *)

(** The first scenario of the specification: one ADD at 0.0084 an hour,
    730 hours a month. *)
Example add_scenario :
  let run := mainLoop exampleEnv (report [microChange]) exampleMap in
  (λ r, (before r, after r)) <$> rows run = [ (None, Some (Q2Qc (84 # 10000) * Q2Qc 730)%Qc) ]
  ∧ (Q2Qc (84 # 10000) * Q2Qc 730 = Q2Qc (6132 # 1000))%Qc
  ∧ delta <$> rows run = [ Some (Q2Qc (6132 # 1000)) ]
  ∧ totalDelta run = Q2Qc (6132 # 1000).
Proof.
  split; [apply (bool_decide_unpack _); vm_compute; reflexivity|].
  split; [by apply Qc_is_canon|].
  split; apply (bool_decide_unpack _); vm_compute; reflexivity.
Qed.

(** Two resource changes with the same lookup cause one request, also when
    that request fails; filters given in another order have the same
    key. *)
Example shared_lookup_scenario :
  length (sent (world (mainLoop exampleEnv
                         (report [microChange; instanceChange "Worker" "ADD" None (Some "micro")])
                         exampleMap))) = 1
  ∧ length (sent (world (mainLoop exampleEnv
                           (report [failedChange; instanceChange "Worker" "ADD" None (Some "offline")])
                           exampleMap))) = 1
  ∧ cacheKey exampleEnv "Compute"
      [ {| f_Field := "tenancy"; f_Value := "Shared" |};
        {| f_Field := "instanceType"; f_Value := "micro" |} ]
    = cacheKey exampleEnv "Compute"
        [ {| f_Field := "instanceType"; f_Value := "micro" |};
          {| f_Field := "tenancy"; f_Value := "Shared" |} ].
Proof. repeat split; vm_compute; reflexivity. Qed.

(** * Further properties *)



(** X2: the cache key does not depend on the order in which the filters
    are given, when the comparison of field names is total and transitive
    and takes no two different filters of the list as equal.  The
    comparison need not tell all texts apart: it is enough that it tells
    the fields of these filters apart. *)
Theorem X2_cacheKey_order_independent env serviceCode filters1 filters2 :
  (∀ a b, (localeCompare env a b ≤ 0 ∨ localeCompare env b a ≤ 0)%Z) →
  (∀ a b c, (localeCompare env a b ≤ 0 → localeCompare env b c ≤ 0 →
             localeCompare env a c ≤ 0)%Z) →
  (∀ f g, f ∈ filters1 → g ∈ filters1 →
          (localeCompare env (f_Field f) (f_Field g) ≤ 0)%Z →
          (localeCompare env (f_Field g) (f_Field f) ≤ 0)%Z → f = g) →
  filters1 ≡ₚ filters2 →
  cacheKey env serviceCode filters1 = cacheKey env serviceCode filters2.
Proof.
  intros Htotal Htrans Hantisym Hperm.
  by apply cacheKey_permutation.
Qed.

(** The comparison of the witness takes no account of case, and so takes
    different texts as equal. *)
Lemma X2_cacheKey_order_independent_witness :
  cacheKey foldingEnv "Compute"
    [ {| f_Field := "tenancy"; f_Value := "Shared" |};
      {| f_Field := "instanceType"; f_Value := "micro" |} ]
  = cacheKey foldingEnv "Compute"
      [ {| f_Field := "instanceType"; f_Value := "micro" |};
        {| f_Field := "tenancy"; f_Value := "Shared" |} ].
Proof.
  apply (X2_cacheKey_order_independent foldingEnv).
  - apply caseBlindCompare_total.
  - apply caseBlindCompare_trans.
  - intros f g Hf Hg.
    apply elem_of_cons in Hf as [-> | Hf]; [|apply list_elem_of_singleton in Hf as ->];
      (apply elem_of_cons in Hg as [-> | Hg]; [|apply list_elem_of_singleton in Hg as ->]);
      intros H1 H2; try reflexivity; exfalso;
      (by apply H1) || (by apply H2).
  - apply Permutation_swap.
Defined.

(** ** The cache of a run *)



(** ** Counts *)

Lemma priceResource_priced env w mapping res :
  (priceResource env w mapping res).1.2
  = bool_decide (is_Some (deltaOf (priceResource env w mapping res).1.1.1
                                  (priceResource env w mapping res).1.1.2)).
Proof.
  unfold priceResource.
  destruct (bool_decide (action res = "ADD"));
    [|destruct (bool_decide (action res = "REMOVE"));
      [|destruct (bool_decide (action res = "UPDATE"))]];
    repeat match goal with
           | |- context [queryPrice ?e ?w ?s ?f] =>
               destruct (queryPrice e w s f) as [[?|] ?]
           end; reflexivity.
Qed.

Lemma step_counts env resourceMap st sr :
  pricedCount st + unmapped (rows st) = length (rows st) →
  pricedCount (step env resourceMap st sr) + unmapped (rows (step env resourceMap st sr))
  = length (rows (step env resourceMap st sr)).
Proof.
  intros Hst. destruct sr as [stack res]. unfold step, processResource. cbn [fst snd].
  destruct (isSkipped res); [done|].
  destruct (isFree resourceMap res); [done|].
  destruct (prop_lookup (entries resourceMap) (type res)) as [mapping|].
  - pose proof (priceResource_priced env (world st) mapping res) as Hp.
    destruct (priceResource env (world st) mapping res) as [[[b a] priced] w].
    cbn [fst snd] in Hp. cbn [rows pricedCount].
    rewrite unmapped_snoc, length_app. cbn [length delta pricedRow]. subst priced.
    destruct (deltaOf b a); cbn; lia.
  - destruct (holdsOther resourceMap (type res) && callsBuildFilters res); [done|].
    cbn [rows pricedCount]. rewrite unmapped_snoc, length_app. cbn. lia.
Qed.

(** X4: in every run, the count of priced resources and the count of rows
    without pricing data add up to the number of rows: a resource change
    is counted as priced exactly when its row has a delta. *)
Theorem X4_priced_and_unpriced_rows env diffData resourceMap :
  pricedCount (mainLoop env diffData resourceMap)
  + unmapped (rows (mainLoop env diffData resourceMap))
  = length (rows (mainLoop env diffData resourceMap)).
Proof.
  apply (mainLoop_invariant env diffData resourceMap
           (λ st, pricedCount st + unmapped (rows st) = length (rows st))); [done..|].
  intros st sr. apply step_counts.
Qed.

Lemma step_accounts env resourceMap st sr :
  throws resourceMap sr.2 = false →
  let st' := step env resourceMap st sr in
  (if isSkipped sr.2 then 1 else 0) + freeCount st' + length (rows st')
  = S (freeCount st + length (rows st)).
Proof.
  destruct sr as [stack res]. unfold throws, step, processResource. cbn [fst snd].
  destruct (isSkipped res); [cbn; lia|].
  destruct (isFree resourceMap res); [cbn; lia|]. cbn [negb andb].
  destruct (prop_lookup (entries resourceMap) (type res)) as [mapping|].
  - intros _. destruct (priceResource env (world st) mapping res) as [[[b a] priced] w].
    cbn [rows freeCount]. rewrite length_app. cbn. lia.
  - intros ->. cbn [rows freeCount]. rewrite length_app. cbn. lia.
Qed.

Lemma completed_split resourceMap (ws : list (Stack * Resource)) :
  existsb (λ sr, throws resourceMap sr.2) ws = true →
  ∃ pre sr post,
    ws = pre ++ sr :: post ∧ completed resourceMap ws = pre
    ∧ throws resourceMap sr.2 = true.
Proof.
  induction ws as [|sr ws IH]; [done|]. cbn.
  destruct (throws resourceMap sr.2) eqn:Hthrows; cbn [orb].
  - intros _. by exists [], sr, ws.
  - intros (pre & sr' & post & -> & Hpre & Hsr')%IH.
    exists (sr :: pre), sr', post. by rewrite Hpre.
Qed.

(** X5: every resource change whose turn a run completes is accounted for
    exactly once: it is skipped for its type, or counted as free, or it has
    a row.  A run without an exception completes the turn of every resource
    change of the stacks that have a difference; a run with an exception
    completes the turns before the first that throws, and no other. *)
Theorem X5_every_change_accounted env diffData resourceMap :
  length (filter (λ sr, isSkipped sr.2 = true) (visited resourceMap diffData))
  + freeCount (mainLoop env diffData resourceMap)
  + length (rows (mainLoop env diffData resourceMap))
  = length (visited resourceMap diffData)
  ∧ (thrown (mainLoop env diffData resourceMap) = None →
     visited resourceMap diffData = work diffData)
  ∧ (∀ message, thrown (mainLoop env diffData resourceMap) = Some message →
       ∃ pre sr post,
         work diffData = pre ++ sr :: post
         ∧ visited resourceMap diffData = pre
         ∧ throws resourceMap sr.2 = true).
Proof.
  split; [|split].
  - rewrite mainLoop_work. cbn [freeCount rows setThrown].
    enough (∀ ws st,
              Forall (λ sr, throws resourceMap sr.2 = false) ws →
              length (filter (λ sr, isSkipped sr.2 = true) ws)
              + freeCount (foldl (step env resourceMap) st ws)
              + length (rows (foldl (step env resourceMap) st ws))
              = length ws + freeCount st + length (rows st)) as Hgen.
    { rewrite Hgen by apply completed_no_throw. cbn. lia. }
    intros ws st Hws. revert st.
    induction Hws as [|sr ws Hsr Hws IH]; intros st; [done|].
    cbn [foldl length]. rewrite filter_cons.
    pose proof (step_accounts env resourceMap st sr Hsr) as Hstep. cbn zeta in Hstep.
    specialize (IH (step env resourceMap st sr)).
    destruct (isSkipped sr.2); case_decide; try done; cbn [length]; lia.
  - rewrite mainLoop_thrown. unfold aborts, visited.
    destruct (existsb _ (work diffData)) eqn:Hex; [done|].
    intros _. by apply completed_all.
  - intros message. rewrite mainLoop_thrown. unfold aborts, visited.
    destruct (existsb _ (work diffData)) eqn:Hex; [|done].
    intros _. by apply completed_split.
Qed.

Lemma X5_every_change_accounted_witness :
  visited exampleMap (report [microChange; constructorChange; resizeChange])
  = [ (netStack [microChange; constructorChange; resizeChange], microChange) ]
  ∧ visited exampleMap (report [microChange; resizeChange])
    = work (report [microChange; resizeChange]).
Proof.
  destruct (X5_every_change_accounted exampleEnv
              (report [microChange; constructorChange; resizeChange]) exampleMap)
    as (_ & _ & Hthrown).
  destruct (X5_every_change_accounted exampleEnv
              (report [microChange; resizeChange]) exampleMap)
    as (_ & Hcomplete & _).
  split; [|apply Hcomplete; reflexivity].
  destruct (Hthrown "mapping.filters is not iterable") as (pre & sr & post & _ & _ & _);
    [reflexivity|]. reflexivity.
Defined.

(** ** Signs of the costs *)

Lemma prop_lookup_elem {A} (obj : list (string * A)) (key : string) (v : A) :
  prop_lookup obj key = Some v → (key, v) ∈ obj.
Proof.
  induction obj as [|[k a] obj IH]; [done|]. cbn.
  case_bool_decide as Hk.
  - intros [= ->]. subst. apply list_elem_of_here.
  - intros Hv. by apply list_elem_of_further, IH.
Qed.

Lemma Qc_pos_mult (a b : Qc) : (0 < a)%Qc → (0 < b)%Qc → (0 < a * b)%Qc.
Proof.
  intros Ha Hb. rewrite <- (Qcmult_0_l b). by apply Qcmult_lt_compat_r.
Qed.

Lemma whenTruthy_positive (o : option Qc) (h : Qc) :
  nonNegative o → whenTruthy o = Some h → (0 < h)%Qc.
Proof.
  intros Ho. unfold whenTruthy, truthyNum.
  destruct o as [q|]; [|done]. case_bool_decide as Hq; [done|].
  cbn. intros [= <-].
  destruct (Qcle_lt_or_eq 0 q (Ho q eq_refl)) as [? | <-]; done.
Qed.

Lemma monthlyCost_positive (unitPrice : Qc) (mapping : Mapping) :
  nonNegative (monthlyHours mapping) →
  nonNegative (monthlyQuantity mapping) →
  (0 < unitPrice)%Qc → (0 < monthlyCost unitPrice mapping)%Qc.
Proof.
  intros Hh Hq Hu. unfold monthlyCost.
  destruct (whenTruthy (monthlyHours mapping)) as [h|] eqn:Hhours.
  { apply Qc_pos_mult; [done|]. by apply (whenTruthy_positive (monthlyHours mapping)). }
  destruct (whenTruthy (monthlyQuantity mapping)) as [q|] eqn:Hquantity; [|done].
  apply Qc_pos_mult; [done|]. by apply (whenTruthy_positive (monthlyQuantity mapping)).
Qed.

Lemma orZero_Some (c : Qc) : orZero (Some c) = c.
Proof. by rewrite orZero_nullish. Qed.

Lemma priceResource_signed env w mapping res :
  nonNegative (monthlyHours mapping) →
  nonNegative (monthlyQuantity mapping) →
  cachePositive w →
  let '(b, a, _, w') := priceResource env w mapping res in
  cachePositive w'
  ∧ (∀ c, b = Some c → (0 < c)%Qc)
  ∧ (∀ c, a = Some c → (0 < c)%Qc)
  ∧ (action res = "ADD" → b = None)
  ∧ (action res = "REMOVE" → a = None).
Proof.
  intros Hh Hq Hw. unfold priceResource.
  assert (∀ p : PriceEntry, (0 < usd p)%Qc → (0 < monthlyCost (usd p) mapping)%Qc)
    as Hcost by (intros p; by apply monthlyCost_positive).
  case_bool_decide as Hadd; [|case_bool_decide as Hrem; [|case_bool_decide as Hupd]].
  - destruct (queryPrice_cachePositive env w (serviceCode mapping)
                (buildFilters mapping (properties res) true) Hw) as [Hw1 Hp].
    destruct (queryPrice env w _ _) as [[p|] w1]; cbn [fst snd] in *.
    + repeat split; try done; try (intros Hact; congruence).
      intros c [= <-]. by apply Hcost, Hp.
    + done.
  - destruct (queryPrice_cachePositive env w (serviceCode mapping)
                (buildFilters mapping (properties res) false) Hw) as [Hw1 Hp].
    destruct (queryPrice env w _ _) as [[p|] w1]; cbn [fst snd] in *.
    + repeat split; try done; try (intros Hact; congruence).
      intros c [= <-]. by apply Hcost, Hp.
    + done.
  - destruct (queryPrice_cachePositive env w (serviceCode mapping)
                (buildFilters mapping (properties res) false) Hw) as [Hw1 Hp].
    destruct (queryPrice env w _ _) as [p w1]; cbn [fst snd] in *.
    destruct (queryPrice_cachePositive env w1 (serviceCode mapping)
                (buildFilters mapping (properties res) true) Hw1) as [Hw2 Hp2].
    destruct (queryPrice env w1 _ _) as [p2 w2]; cbn [fst snd] in *.
    split; [done|]. split; [|split; [|split; intros Hact; congruence]].
    + intros c. destruct p as [p|]; [|done]. intros [= <-]. by apply Hcost, Hp.
    + intros c. destruct p2 as [p2|]; [|done]. intros [= <-]. by apply Hcost, Hp2.
  - done.
Qed.

Lemma deltaOf_signed (b a : option Qc) :
  (∀ c, b = Some c → (0 < c)%Qc) →
  (∀ c, a = Some c → (0 < c)%Qc) →
  (b = None → ∀ d, deltaOf b a = Some d → (0 < d)%Qc)
  ∧ (a = None → ∀ d, deltaOf b a = Some d → (d < 0)%Qc).
Proof.
  intros Hb Ha. split.
  - intros -> d. destruct a as [c|]; [|done]. cbn. intros [= <-].
    rewrite orZero_Some. unfold orZero, whenTruthy. cbn.
    replace (c - 0)%Qc with c by ring. by apply Ha.
  - intros -> d. destruct b as [c|]; [|done]. cbn. intros [= <-].
    rewrite orZero_Some. unfold orZero, whenTruthy. cbn.
    apply Qclt_minus_iff. replace (0 + - (0 - c))%Qc with c by ring. by apply Hb.
Qed.

Lemma step_signed env resourceMap st sr :
  (∀ t m, (t, m) ∈ entries resourceMap →
          nonNegative (monthlyHours m) ∧ nonNegative (monthlyQuantity m)) →
  cachePositive (world st) ∧ Forall signedRow (rows st) →
  cachePositive (world (step env resourceMap st sr))
  ∧ Forall signedRow (rows (step env resourceMap st sr)).
Proof.
  intros Hmap [Hw Hrows]. destruct sr as [stack res].
  unfold step, processResource. cbn [fst snd].
  destruct (isSkipped res); [done|].
  destruct (isFree resourceMap res); [done|].
  destruct (prop_lookup (entries resourceMap) (type res)) as [mapping|] eqn:Hlookup.
  - destruct (Hmap _ _ (prop_lookup_elem _ _ _ Hlookup)) as [Hh Hq].
    pose proof (priceResource_signed env (world st) mapping res Hh Hq Hw) as Hprice.
    destruct (priceResource env (world st) mapping res) as [[[b a] priced] w].
    destruct Hprice as (Hw' & Hb & Ha & Hadd & Hrem).
    destruct (deltaOf_signed b a Hb Ha) as [Hup Hdown].
    split; [done|]. cbn [rows]. apply Forall_app. split; [done|].
    constructor; [|constructor].
    unfold signedRow. cbn [before after delta r_action pricedRow].
    split; [done|]. split; [done|]. split; intros Hact; [apply Hup | apply Hdown]; auto.
  - destruct (holdsOther resourceMap (type res) && callsBuildFilters res); [done|].
    split; [done|]. cbn [rows]. apply Forall_app. split; [done|].
    constructor; [|constructor]. by unfold signedRow.
Qed.

(** X6: when no rule of the resource map has a multiplier below zero,
    every cost in every row is above zero, every ADD that is priced raises
    the estimate and every REMOVE that is priced lowers it. *)
Theorem X6_signs_of_costs env diffData resourceMap :
  (∀ t m, (t, m) ∈ entries resourceMap →
          nonNegative (monthlyHours m) ∧ nonNegative (monthlyQuantity m)) →
  Forall signedRow (rows (mainLoop env diffData resourceMap)).
Proof.
  intros Hmap. rewrite mainLoop_work.
  apply (foldl_invariant (λ st, cachePositive (world st) ∧ Forall signedRow (rows st))).
  - split; [|constructor]. intros k e. cbn. by rewrite lookup_empty.
  - intros st sr. by apply step_signed.
Qed.

Lemma X6_signs_of_costs_witness :
  Forall signedRow
    (rows (mainLoop exampleEnv (report [microChange; resizeChange]) exampleMap)).
Proof.
  apply (X6_signs_of_costs exampleEnv (report [microChange; resizeChange]) exampleMap).
  intros t m Hm. unfold nonNegative.
  apply elem_of_cons in Hm as [[= -> ->] | Hm];
    [|apply elem_of_cons in Hm as [[= -> ->] | Hm]; [|by apply elem_of_nil in Hm]];
    split; intros q [= <-]; apply (bool_decide_unpack _); vm_compute; reflexivity.
Defined.

(** ** Rules without property filters *)

Lemma resolveFilterValue_static valueDef properties1 useNew1 properties2 useNew2 :
  truthy (vd_cfProperty valueDef) = false →
  resolveFilterValue valueDef properties1 useNew1
  = resolveFilterValue valueDef properties2 useNew2.
Proof.
  intros Hcf. unfold resolveFilterValue. rewrite Hcf.
  destruct (truthy (vd_default valueDef)); [done|]. cbn.
  destruct (vd_cfProperty valueDef) as [cf|]; [|done].
  cbn in Hcf. apply negb_false_iff in Hcf. by rewrite Hcf.
Qed.

Lemma buildFilters_static mapping properties1 useNew1 properties2 useNew2 :
  staticRule mapping →
  buildFilters mapping properties1 useNew1 = buildFilters mapping properties2 useNew2.
Proof.
  unfold staticRule, buildFilters.
  induction 1 as [|f fs Hf Hfs IH]; [done|]. cbn.
  rewrite (resolveFilterValue_static _ properties1 useNew1 properties2 useNew2 Hf).
  by rewrite IH.
Qed.

(** X7: an UPDATE of a resource whose rule takes no filter value from a
    property is priced with one lookup for both directions: it sends at
    most one request, its before and after costs are the same, its delta
    is zero when it is priced, and the total does not change. *)
Theorem X7_static_update env resourceMap stack st res mapping :
  isSkipped res = false →
  isFree resourceMap res = false →
  prop_lookup (entries resourceMap) (type res) = Some mapping →
  staticRule mapping →
  action res = "UPDATE" →
  let st' := processResource env resourceMap stack st res in
  (∃ row, rows st' = rows st ++ [row]
          ∧ before row = after row
          ∧ delta row = (λ _, 0%Qc) <$> before row)
  ∧ totalDelta st' = totalDelta st
  ∧ length (sent (world st')) ≤ S (length (sent (world st))).
Proof.
  intros Hskip Hfree Hmap Hstatic Hact st'. subst st'.
  rewrite (processResource_mapped _ _ _ _ _ _ Hskip Hfree Hmap).
  unfold priceResource. rewrite Hact. cbn [bool_decide].
  rewrite (bool_decide_eq_false_2 ("UPDATE" = "ADD")) by done.
  rewrite (bool_decide_eq_false_2 ("UPDATE" = "REMOVE")) by done.
  rewrite (bool_decide_eq_true_2 ("UPDATE" = "UPDATE")) by done.
  rewrite (buildFilters_static mapping (properties res) true (properties res) false Hstatic).
  pose proof (queryPrice_cached env (world st) (serviceCode mapping)
                (buildFilters mapping (properties res) false)) as Hcached.
  assert (length (sent (queryPrice env (world st) (serviceCode mapping)
                          (buildFilters mapping (properties res) false)).2)
          ≤ S (length (sent (world st)))) as Hsent.
  { unfold queryPrice. destruct (priceCache (world st) !! _); cbn; [lia|].
    rewrite length_app. cbn. lia. }
  destruct (queryPrice env (world st) _ _) as [q w1]. cbn [fst snd] in Hcached, Hsent.
  rewrite (queryPrice_hit _ _ _ _ _ Hcached).
  cbn [rows totalDelta world delta before after pricedRow].
  destruct q as [p|]; cbn [fmap option_fmap option_map].
  - split; [|split; [|done]].
    + eexists. split; [reflexivity|].
      cbn [before after delta pricedRow deltaOf fmap option_fmap option_map].
      rewrite orZero_Some. split; [done|]. f_equal. ring.
    + cbn [delta pricedRow deltaOf]. rewrite orZero_Some. ring.
  - split; [by eexists|]. done.
Qed.

Lemma X7_static_update_witness :
  let res := {| logicalId := "Spot"; type := "Compute::Spot"; action := "UPDATE";
                properties := None |} in
  let st' := processResource exampleEnv zeroHoursMap (netStack [res]) start res in
  (∃ row, rows st' = rows start ++ [row]
          ∧ before row = after row
          ∧ delta row = (λ _, 0%Qc) <$> before row)
  ∧ totalDelta st' = totalDelta start
  ∧ length (sent (world st')) ≤ S (length (sent (world start))).
Proof.
  intros res.
  apply (X7_static_update exampleEnv zeroHoursMap (netStack [res]) start res zeroHoursRule).
  - reflexivity.
  - reflexivity.
  - reflexivity.
  - repeat constructor.
  - reflexivity.
Defined.

(** ** Requests *)

Lemma REGION_NAMES_not_empty : Forall (λ kv, kv.2 ≠ EmptyString) REGION_NAMES.
Proof. repeat constructor; done. Qed.

Lemma REGION_NAMES_own :
  Forall (λ key, prop_lookup REGION_NAMES key = None) inheritedNames.
Proof. repeat constructor. Qed.

Lemma locationName_named env :
  inherited (region env) = false →
  ∃ name, locationName env = Text name ∧ name ≠ EmptyString
          ∧ (∃ code, prop_lookup REGION_NAMES code = Some name)
          ∧ (prop_lookup REGION_NAMES (region env) = None →
             name = "US East (N. Virginia)").
Proof.
  intros Hinh. unfold locationName.
  destruct (prop_lookup REGION_NAMES (region env)) as [n|] eqn:Hregion.
  - assert (n ≠ EmptyString) as Hn.
    { apply prop_lookup_elem in Hregion.
      by apply (proj1 (Forall_forall _ _) REGION_NAMES_not_empty (region env, n)). }
    exists n. cbn [orElse]. rewrite (bool_decide_eq_false_2 _ Hn).
    split; [done|]. split; [done|]. split; [by eexists | done].
  - rewrite Hinh. exists "US East (N. Virginia)".
    split; [done|]. split; [done|]. split; [by exists "us-east-1" | done].
Qed.

Lemma locationName_inherited env :
  inherited (region env) = true → locationName env = Inherited (region env).
Proof.
  intros Hinh. unfold locationName. rewrite Hinh.
  unfold inherited in Hinh. apply bool_decide_eq_true in Hinh.
  by rewrite (proj1 (Forall_forall _ _) REGION_NAMES_own _ Hinh).
Qed.

(** X8: the location of the price queries is a name of the region table,
    never empty, and US East (N. Virginia) for a region that is not in the
    table and for a missing or empty region argument; unless the region is
    the name of a property that every object inherits: then the location
    is that inherited function or object, and no text. *)
Theorem X8_location_fallback env :
  (inherited (region env) = false →
   ∃ name, locationName env = Text name ∧ name ≠ EmptyString
           ∧ (∃ code, prop_lookup REGION_NAMES code = Some name)
           ∧ (prop_lookup REGION_NAMES (region env) = None →
              name = "US East (N. Virginia)"))
  ∧ (inherited (region env) = true → locationName env = Inherited (region env))
  ∧ (truthy (regionArg env) = false →
     locationName env = Text "US East (N. Virginia)").
Proof.
  split; [apply locationName_named|]. split; [apply locationName_inherited|].
  intros Harg. unfold locationName, region.
  destruct (regionArg env) as [r|]; [|done].
  cbn in Harg. apply negb_false_iff in Harg. cbn [orElse]. by rewrite Harg.
Qed.

Lemma X8_location_fallback_witness :
  (∃ name, locationName marsEnv = Text name ∧ name ≠ EmptyString
           ∧ (∃ code, prop_lookup REGION_NAMES code = Some name)
           ∧ (prop_lookup REGION_NAMES (region marsEnv) = None →
              name = "US East (N. Virginia)"))
  ∧ locationName constructorEnv = Inherited "constructor".
Proof.
  destruct (X8_location_fallback marsEnv) as (Hnamed & _ & _).
  destruct (X8_location_fallback constructorEnv) as (_ & Hinherited & _).
  split; [apply Hnamed | apply Hinherited]; reflexivity.
Defined.

Lemma mkCommand_wellFormed env serviceCode filters :
  Forall (λ f, f_Value f ≠ EmptyString) filters →
  wellFormedRequest env (mkCommand env serviceCode filters).
Proof.
  intros Hvalues. unfold wellFormedRequest, mkCommand, allFilters.
  cbn [MaxResults Filters]. split; [done|]. split.
  - apply Forall_app. split.
    + apply Forall_fmap. by apply Forall_forall.
    + by repeat constructor.
  - eexists. split; [reflexivity|].
    apply Forall_fmap. eapply Forall_impl; [exact Hvalues|].
    intros f Hf. by exists (f_Value f).
Qed.

Lemma lookupAll_sent env w ls cmd :
  cmd ∈ sent (lookupAll env w ls) →
  cmd ∈ sent w ∨ ∃ l, l ∈ ls ∧ cmd = mkCommand env l.1 l.2.
Proof.
  unfold lookupAll. revert w. induction ls as [|l ls IH]; intros w; cbn [foldl].
  - by left.
  - intros [Hcmd | (l' & Hl' & ->)]%IH.
    + unfold queryPrice in Hcmd.
      destruct (priceCache w !! cacheKey env l.1 l.2); cbn [snd sent] in Hcmd;
        [by left|].
      apply elem_of_app in Hcmd as [Hcmd | ->%list_elem_of_singleton]; [by left|].
      right. exists l. split; [apply list_elem_of_here | done].
    + right. exists l'. split; [by apply list_elem_of_further | done].
Qed.

Lemma lookups_buildFilters resourceMap res l :
  l ∈ lookups resourceMap res →
  ∃ mapping useNew, l = (serviceCode mapping, buildFilters mapping (properties res) useNew).
Proof.
  unfold lookups.
  destruct (isSkipped res || isFree resourceMap res); [by intros ?%elem_of_nil|].
  destruct (prop_lookup (entries resourceMap) (type res)) as [mapping|];
    [|by intros ?%elem_of_nil].
  repeat case_bool_decide;
    repeat (intros [-> | Hl]%elem_of_cons; [by eexists _, _ | revert Hl]);
    by intros ?%elem_of_nil.
Qed.

(** X9: every request that a run sends to the pricing service asks for at
    most one result, has only exact-match filters, and ends with the
    location filter of the run; the values of the filters before it are
    texts that are not empty. *)
Theorem X9_requests_well_formed env diffData resourceMap :
  Forall (wellFormedRequest env) (sent (world (mainLoop env diffData resourceMap))).
Proof.
  rewrite mainLoop_world. apply Forall_forall. intros cmd Hcmd.
  apply lookupAll_sent in Hcmd as [Hcmd | (l & Hl & ->)];
    [by apply elem_of_nil in Hcmd|].
  unfold runLookups in Hl. apply list_elem_of_bind in Hl as (sr & Hl & _).
  apply lookups_buildFilters in Hl as (mapping & useNew & ->).
  apply mkCommand_wellFormed, buildFilters_loop_values.
Qed.

(** ** Direction of the property values *)

Lemma directionalValue_sameDirection useNew ps ps' cf :
  Forall2 (sameDirection useNew) ps ps' →
  directionalValue (Some ps) cf useNew = directionalValue (Some ps') cf useNew.
Proof.
  unfold directionalValue. cbn [default from_option id].
  induction 1 as [|p p' ps ps' [Hname Hvalue] _ IH]; [done|].
  cbn [List.find]. rewrite <- Hname.
  case_bool_decide; [|done]. cbn. by destruct useNew.
Qed.

Lemma resolveFilterValue_sameDirection valueDef useNew ps ps' :
  Forall2 (sameDirection useNew) ps ps' →
  resolveFilterValue valueDef (Some ps) useNew
  = resolveFilterValue valueDef (Some ps') useNew.
Proof.
  intros Hps. destruct (truthy (vd_cfProperty valueDef)) eqn:Hcf.
  - destruct (vd_cfProperty valueDef) as [cf|] eqn:Hcf'; [|done].
    cbn in Hcf. apply negb_true_iff, bool_decide_eq_false in Hcf.
    rewrite !(resolveFilterValue_fromProperty _ _ _ cf Hcf' Hcf).
    by rewrite (directionalValue_sameDirection useNew ps ps' cf Hps).
  - by apply resolveFilterValue_static.
Qed.

Lemma buildFilters_sameDirection mapping useNew ps ps' :
  Forall2 (sameDirection useNew) ps ps' →
  buildFilters mapping (Some ps) useNew = buildFilters mapping (Some ps') useNew.
Proof.
  intros Hps. unfold buildFilters.
  induction (filters mapping) as [|f fs IH]; [done|]. cbn.
  by rewrite (resolveFilterValue_sameDirection _ useNew ps ps' Hps), IH.
Qed.

(** X10: pricing an ADD reads only the new values of the property changes
    and pricing a REMOVE only the old ones: changing the values of the
    other direction changes nothing of what the turn of the loop does. *)
Theorem X10_other_direction_ignored env resourceMap stack st res useNew ps ps' :
  (action res = "ADD" ∧ useNew = true) ∨ (action res = "REMOVE" ∧ useNew = false) →
  Forall2 (sameDirection useNew) ps ps' →
  processResource env resourceMap stack st (withProperties res ps)
  = processResource env resourceMap stack st (withProperties res ps').
Proof.
  intros Hact Hps.
  unfold processResource, isSkipped, isFree, priceResource, pricedRow, unmappedRow,
    withProperties.
  cbn [type action properties logicalId].
  destruct (startsWith (type res) "_" || bool_decide (type res = "Unknown")); [done|].
  destruct (bool_decide (type res ∈ freeList resourceMap)); [done|].
  destruct (prop_lookup (entries resourceMap) (type res)) as [mapping|]; [|done].
  destruct Hact as [[-> ->] | [-> ->]];
    rewrite ?(bool_decide_eq_false_2 ("REMOVE" = "ADD")) by done;
    rewrite ?(bool_decide_eq_false_2 ("ADD" = "UPDATE")) by done;
    rewrite ?(bool_decide_eq_false_2 ("REMOVE" = "UPDATE")) by done;
    by rewrite (buildFilters_sameDirection _ _ ps ps' Hps).
Qed.

Lemma X10_other_direction_ignored_witness :
  processResource exampleEnv exampleMap (netStack []) start
    (withProperties microChange
       [ {| name := "InstanceType"; impact := "WILL_REPLACE";
            oldValue := Some "large"; newValue := Some "micro" |} ])
  = processResource exampleEnv exampleMap (netStack []) start
      (withProperties microChange
         [ {| name := "InstanceType"; impact := "WILL_REPLACE";
              oldValue := None; newValue := Some "micro" |} ]).
Proof.
  apply (X10_other_direction_ignored exampleEnv exampleMap (netStack []) start
           microChange true).
  - left. split; reflexivity.
  - repeat constructor.
Defined.

(** X11: the filters of a query keep the order of the filters of the rule:
    their fields are the fields of the rule with some left out. *)
Theorem X11_filters_keep_rule_order mapping properties useNew :
  f_Field <$> buildFilters mapping properties useNew
    `sublist_of` Field <$> filters mapping.
Proof.
  unfold buildFilters. induction (filters mapping) as [|f fs IH]; [done|]. cbn.
  destruct (resolveFilterValue _ _ _) as [value|]; [|by apply sublist_cons].
  case_bool_decide; [by apply sublist_cons|]. by apply sublist_skip.
Qed.

(** ** Texts of the rows and of the report *)

Lemma spaceCamelCase_cons (a : ascii) (rest : string) :
  spaceCamelCase (String a rest)
  = if is_lower a && startsUpper rest
    then String a (String " " (spaceCamelCase rest))
    else String a (spaceCamelCase rest).
Proof. destruct rest as [|b rest]; cbn; [by rewrite andb_false_r|done]. Qed.

Lemma hasCamelBoundary_cons (a : ascii) (rest : string) :
  hasCamelBoundary (String a rest)
  = (is_lower a && startsUpper rest) || hasCamelBoundary rest.
Proof. destruct rest; cbn; [by rewrite andb_false_r | done]. Qed.

Lemma startsUpper_spaceCamelCase (s : string) :
  startsUpper (spaceCamelCase s) = startsUpper s.
Proof.
  destruct s as [|a rest]; [done|]. rewrite spaceCamelCase_cons.
  by destruct (is_lower a && startsUpper rest).
Qed.

Lemma spaceCamelCase_no_boundary (s : string) :
  hasCamelBoundary (spaceCamelCase s) = false.
Proof.
  induction s as [|a rest IH]; [done|]. rewrite spaceCamelCase_cons.
  destruct (is_lower a && startsUpper rest) eqn:Hboundary.
  - rewrite !hasCamelBoundary_cons, IH. cbn. by rewrite andb_false_r.
  - by rewrite hasCamelBoundary_cons, startsUpper_spaceCamelCase, Hboundary, IH.
Qed.

Lemma removeSpaces_spaceCamelCase (s : string) :
  removeSpaces (spaceCamelCase s) = removeSpaces s.
Proof.
  induction s as [|a rest IH]; [done|]. rewrite spaceCamelCase_cons.
  destruct (is_lower a && startsUpper rest); cbn; by rewrite IH.
Qed.

Lemma stripHashSuffix_prefix (s : string) :
  ∃ suffix,
    list_ascii_of_string s = list_ascii_of_string (stripHashSuffix s) ++ suffix
    ∧ (suffix = [] ∨ (length suffix = 8 ∧ forallb is_hex suffix = true)).
Proof.
  unfold stripHashSuffix.
  destruct ((8 <=? length (list_ascii_of_string s))%nat
            && forallb is_hex (drop (length (list_ascii_of_string s) - 8)
                                 (list_ascii_of_string s))) eqn:Htest.
  - apply andb_prop in Htest as [Hlen%Nat.leb_le Hhex].
    exists (drop (length (list_ascii_of_string s) - 8) (list_ascii_of_string s)).
    rewrite list_ascii_of_string_of_list_ascii, take_drop. split; [done|].
    right. split; [|done]. rewrite length_drop. lia.
  - exists []. rewrite app_nil_r. by split; [|left].
Qed.

(** X12: the cleaned identifier of a row is the logical identifier without
    a trailing run of eight hexadecimal digits, when it has one, and with
    spaces put in: apart from spaces it has the same characters, and it
    has no small letter directly followed by a capital letter. *)
Theorem X12_cleanId_shape (id : string) :
  (∃ suffix,
     list_ascii_of_string id = list_ascii_of_string (stripHashSuffix id) ++ suffix
     ∧ (suffix = [] ∨ (length suffix = 8 ∧ forallb is_hex suffix = true)))
  ∧ removeSpaces (cleanId id) = removeSpaces (stripHashSuffix id)
  ∧ hasCamelBoundary (cleanId id) = false.
Proof.
  split; [apply stripHashSuffix_prefix|]. unfold cleanId.
  split; [apply removeSpaces_spaceCamelCase | apply spaceCamelCase_no_boundary].
Qed.

Lemma string_ind2 (P : string → Prop) :
  P EmptyString →
  (∀ c, P (String c EmptyString)) →
  (∀ c d s, P s → P (String d s) → P (String c (String d s))) →
  ∀ s, P s.
Proof.
  intros Hnil Hone Hstep s.
  enough (P s ∧ ∀ c, P (String c s)) as [? _] by done.
  induction s as [|d s [IH1 IH2]]; [by split|].
  split; [apply IH2|]. intros c. by apply Hstep.
Qed.

Lemma split_colons_cons (c : ascii) (rest cur : string) :
  split_colons (String c rest) cur
  = if is_colon c && startsColon rest
    then cur :: split_colons (string_tail rest) EmptyString
    else split_colons rest (cur +:+ String c EmptyString).
Proof.
  destruct c as [[] [] [] [] [] [] [] []]; try reflexivity.
  destruct rest as [|d rest]; [reflexivity|].
  destruct d as [[] [] [] [] [] [] [] []]; reflexivity.
Qed.

Lemma split_colons_not_nil (s cur : string) : split_colons s cur ≠ [].
Proof.
  revert cur. induction s as [| c | c d s IH1 IH2] using string_ind2; intros cur.
  - done.
  - rewrite split_colons_cons. cbn [startsColon]. by rewrite andb_false_r.
  - rewrite split_colons_cons. destruct (is_colon c && startsColon (String d s)); [done|].
    apply IH2.
Qed.

Lemma last_cons_not_nil {A} (x d : A) (l : list A) :
  l ≠ [] → List.last (x :: l) d = List.last l d.
Proof. by destruct l. Qed.

Lemma string_app_nil_r (s : string) : s +:+ EmptyString = s.
Proof.
  induction s as [|c s IH]; [done|].
  change (String c (s +:+ EmptyString) = String c s). by rewrite IH.
Qed.

Lemma shortType_suffix_gen (s cur : string) :
  ∃ p, cur +:+ s = p +:+ List.last (split_colons s cur) EmptyString.
Proof.
  revert cur. induction s as [| c | c d s IH1 IH2] using string_ind2; intros cur.
  - exists EmptyString. by rewrite string_app_nil_r.
  - exists EmptyString. rewrite split_colons_cons. cbn [startsColon].
    by rewrite andb_false_r.
  - rewrite split_colons_cons.
    destruct (is_colon c && startsColon (String d s)).
    + rewrite last_cons_not_nil by apply split_colons_not_nil. cbn [string_tail].
      destruct (IH1 EmptyString) as [p Hp]. cbn [append] in Hp.
      exists (cur +:+ String c (String d p)). rewrite string_app_assoc.
      change (String c (String d p) +:+ ?x) with (String c (String d (p +:+ x))).
      by rewrite <- Hp.
    + destruct (IH2 (cur +:+ String c EmptyString)) as [p Hp].
      exists p. rewrite <- Hp. by rewrite string_app_assoc.
Qed.

Lemma endsColon_snoc (cur : string) (c : ascii) :
  endsColon (cur +:+ String c EmptyString) = is_colon c.
Proof.
  induction cur as [|a cur IH]; [done|].
  change (endsColon (String a (cur +:+ String c EmptyString)) = is_colon c).
  cbn [endsColon]. rewrite <- IH. by destruct cur.
Qed.

Lemma hasSeparator_snoc (cur : string) (c : ascii) :
  hasSeparator (cur +:+ String c EmptyString)
  = hasSeparator cur || (endsColon cur && is_colon c).
Proof.
  induction cur as [|a cur IH].
  - change (hasSeparator (String c EmptyString) = false || (false && is_colon c)).
    cbn. by rewrite andb_false_r.
  - change (hasSeparator (String a (cur +:+ String c EmptyString))
            = hasSeparator (String a cur) || (endsColon (String a cur) && is_colon c)).
    cbn [hasSeparator]. rewrite IH. destruct cur as [|b cur].
    + change (startsColon (EmptyString +:+ String c EmptyString)) with (is_colon c).
      cbn. by destruct (is_colon a), (is_colon c).
    + change (startsColon (String b cur +:+ String c EmptyString)) with (is_colon b).
      cbn [startsColon endsColon].
      by destruct (is_colon a), (is_colon b), (hasSeparator (String b cur)).
Qed.

Lemma shortType_no_separator_gen (s cur : string) :
  hasSeparator cur = false →
  endsColon cur && startsColon s = false →
  hasSeparator (List.last (split_colons s cur) EmptyString) = false.
Proof.
  revert cur. induction s as [| c | c d s IH1 IH2] using string_ind2;
    intros cur Hcur Hjoin.
  - done.
  - rewrite split_colons_cons. cbn [startsColon]. rewrite andb_false_r.
    cbn [split_colons List.last]. rewrite hasSeparator_snoc, Hcur. done.
  - rewrite split_colons_cons.
    destruct (is_colon c && startsColon (String d s)) eqn:Hsep.
    + rewrite last_cons_not_nil by apply split_colons_not_nil. by apply IH1.
    + apply IH2.
      * rewrite hasSeparator_snoc, Hcur. done.
      * by rewrite endsColon_snoc.
Qed.

Lemma shortType_unchanged_gen (s cur : string) :
  hasSeparator s = false → split_colons s cur = [cur +:+ s].
Proof.
  revert cur. induction s as [| c | c d s IH1 IH2] using string_ind2; intros cur Hs.
  - by rewrite string_app_nil_r.
  - rewrite split_colons_cons. cbn [startsColon]. by rewrite andb_false_r.
  - rewrite split_colons_cons. cbn [hasSeparator] in Hs.
    apply orb_false_elim in Hs as [Hsep Hrest]. cbn [startsColon] in Hsep |- *.
    rewrite Hsep, IH2 by done. by rewrite string_app_assoc.
Qed.

(** X13: the short type of a resource type is the end of the type, has no
    separator of two colons in it, and is the type itself when the type
    has no separator. *)
Theorem X13_shortType_shape (t : string) :
  (∃ p, t = p +:+ shortType t)
  ∧ hasSeparator (shortType t) = false
  ∧ (hasSeparator t = false → shortType t = t).
Proof.
  unfold shortType. split; [|split].
  - apply (shortType_suffix_gen t EmptyString).
  - by apply shortType_no_separator_gen.
  - intros Ht. by rewrite shortType_unchanged_gen.
Qed.

Lemma X13_shortType_shape_witness : shortType "Unknown" = "Unknown".
Proof.
  destruct (X13_shortType_shape "Unknown") as (_ & _ & Hsame).
  apply Hsame. reflexivity.
Defined.

(** X14: a missing cost and a missing delta are printed as texts that no
    number is printed as: the dash and "no cost data" stand for null and
    for nothing else, whatever the number formatting is. *)
Theorem X14_null_is_told_apart env (n : option Qc) :
  (fmt env n = "-" ↔ n = None)
  ∧ (fmtDelta env n = "no cost data" ↔ n = None).
Proof.
  destruct n as [q|]; [|done]. unfold fmt, fmtDelta. split; split; try done.
  case_bool_decide; [done|].
  destruct (bool_decide (0 < q)%Qc).
  - change ("+" +:+ ?x) with (String "+"%char x). done.
  - change (EmptyString +:+ "$" +:+ ?x) with (String "$"%char x). done.
Qed.

(** ** Reports without rows, and notes *)

Lemma no_throw_of_skipped_or_free resourceMap (ws : list (Stack * Resource)) :
  (∀ sr, sr ∈ ws → isSkipped sr.2 = true ∨ isFree resourceMap sr.2 = true) →
  existsb (λ sr, throws resourceMap sr.2) ws = false.
Proof.
  induction ws as [|sr ws IH]; [done|]. intros Hall. cbn [existsb].
  rewrite IH by (intros sr' Hin; apply Hall; by right).
  unfold throws. destruct (Hall sr) as [-> | ->]; [by left|done|].
  by rewrite andb_false_r.
Qed.

Lemma rows_nil_of_no_billable env resourceMap diffData :
  billable resourceMap diffData = [] →
  rows (mainLoop env diffData resourceMap) = [].
Proof.
  intros Hnone. rewrite mainLoop_rows.
  destruct (run_rows env resourceMap (visited resourceMap diffData) start
              (completed_no_throw _ _)) as (more & -> & Hid).
  unfold billable in Hnone. rewrite Hnone in Hid.
  by apply fmap_nil_inv in Hid as ->.
Qed.

(** X15: when every resource change of a report is skipped or free, the
    printed report is the report of an empty diff: it says that no change
    has a cost impact and does not tell the number of free resources. *)
Theorem X15_report_without_rows env diffData resourceMap :
  (∀ sr, sr ∈ work diffData → isSkipped sr.2 = true ∨ isFree resourceMap sr.2 = true) →
  main env diffData resourceMap = main env {| stacks := None |} resourceMap.
Proof.
  intros Hall. rewrite !main_ends. unfold aborts at 1.
  rewrite (no_throw_of_skipped_or_free _ _ Hall). cbn [aborts work existsb].
  f_equal. unfold buildMarkdown.
  rewrite (rows_nil_of_no_billable env resourceMap diffData); [done|].
  unfold billable, visited.
  rewrite (completed_all _ _ (no_throw_of_skipped_or_free _ _ Hall)).
  induction (work diffData) as [|sr ws IH]; [done|].
  rewrite billable_cons.
  destruct (Hall sr) as [-> | ->]; [left| |]; rewrite ?orb_true_r; cbn [orb];
    apply IH; intros sr' Hin; apply Hall; by right.
Qed.

Lemma X15_report_without_rows_witness :
  main exampleEnv
    (report [ unknownChange;
              {| logicalId := "DeployRole"; type := "IAM::Role"; action := "ADD";
                 properties := None |} ]) exampleMap
  = main exampleEnv {| stacks := None |} exampleMap.
Proof.
  apply (X15_report_without_rows exampleEnv
           (report [ unknownChange;
                     {| logicalId := "DeployRole"; type := "IAM::Role"; action := "ADD";
                        properties := None |} ]) exampleMap).
  intros sr Hin. vm_compute in Hin.
  apply elem_of_cons in Hin as [-> | Hin]; [left; reflexivity|].
  apply elem_of_cons in Hin as [-> | Hin]; [right; reflexivity|].
  by apply elem_of_nil in Hin.
Defined.




(** A rule for a type whose short type is the key of a value that is not
    a rule, and comes after that key, brings no note. *)
Example note_behind_another_key :
  let row := {| r_stack := "Net"; r_id := "Disk"; r_type := "_free";
                r_detail := EmptyString; r_action := "ADD";
                before := None; after := Some 1%Qc; delta := Some 1%Qc |} in
  usedNotes {| _free := Some [];
               members := [ ("_free", NotRule true); ("Odd::_free", Rule volumeRule) ] |}
            [row] = []
  ∧ usedNotes {| _free := None; members := [ ("Odd::_free", Rule volumeRule) ] |}
              [row] = ["EBS volume"].
Proof. split; reflexivity. Qed.

(** * Properties of the diff script *)

Lemma JsonValue_nested_ind (P : CdkDiff.JsonValue → Prop) :
  P CdkDiff.JUndefined → P CdkDiff.JNull →
  (∀ b, P (CdkDiff.JBoolean b)) →
  (∀ q, P (CdkDiff.JNumber q)) →
  (∀ s, P (CdkDiff.JString s)) →
  (∀ items, Forall P items → P (CdkDiff.JArray items)) →
  (∀ members, Forall (λ kv, P kv.2) members → P (CdkDiff.JObject members)) →
  ∀ v, P v.
Proof.
  intros Hu Hn Hb Hq Hs Ha Ho. fix IH 1. intros [| |b|q|s|items|members].
  - exact Hu.
  - exact Hn.
  - apply Hb.
  - apply Hq.
  - apply Hs.
  - apply Ha. induction items as [|x items IHitems]; constructor.
    + apply IH.
    + exact IHitems.
  - apply Ho. induction members as [|[k x] members IHmembers]; constructor.
    + apply IH.
    + exact IHmembers.
Qed.

Lemma forallb_of_Forall {A} (f : A → bool) (l : list A) :
  Forall (λ x, f x = true) l → forallb f l = true.
Proof. induction 1 as [|x l Hx _ IH]; [done|]. cbn. by rewrite Hx, IH. Qed.

Lemma Forall_of_forallb {A} (f : A → bool) (l : list A) :
  forallb f l = true → Forall (λ x, f x = true) l.
Proof.
  induction l as [|x l IH]; [by constructor|]. cbn.
  intros [Hx Hl]%andb_true_iff. constructor; [done|by apply IH].
Qed.

Lemma Forall_filter_keeps {A} (P Q : A → Prop) `{!∀ x, Decision (Q x)} (l : list A) :
  Forall P l → Forall P (filter Q l).
Proof.
  induction 1 as [|x l Hx _ IH]; [by constructor|].
  rewrite filter_cons. destruct (decide (Q x)); [by constructor|done].
Qed.

Lemma filter_all {A} (Q : A → Prop) `{!∀ x, Decision (Q x)} (l : list A) :
  Forall Q l → filter Q l = l.
Proof.
  induction 1 as [|x l Hx _ IH]; [done|].
  rewrite filter_cons. destruct (decide (Q x)); [by rewrite IH|done].
Qed.

Lemma simplifyValue_simplified (v : CdkDiff.JsonValue) :
  CdkDiff.simplified (CdkDiff.simplifyValue v) = true.
Proof.
  induction v as [| |b|q|s|items IH|members IH] using JsonValue_nested_ind;
    try done.
  - cbn [CdkDiff.simplifyValue]. case_bool_decide as Hzero; [done|].
    case_bool_decide as Hsmall; [|done].
    cbn [CdkDiff.simplified]. rewrite length_fmap.
    rewrite bool_decide_eq_true_2 by lia. cbn [andb].
    apply forallb_of_Forall, Forall_fmap. exact IH.
  - cbn [CdkDiff.simplifyValue]. case_bool_decide as Hzero; [done|].
    case_bool_decide as Hsmall; [|done].
    cbn [CdkDiff.simplified].
    rewrite bool_decide_eq_true_2.
    2:{ etrans; [apply length_filter|]. by rewrite length_fmap. }
    cbn [andb]. apply forallb_of_Forall, Forall_filter_keeps, Forall_fmap.
    exact IH.
Qed.

(** X17: what [simplifyValue] returns is small at every depth: it has no
    null and no empty array, and none of its arrays and objects has more
    than three members. *)
Theorem X17_simplifyValue_is_small (v : CdkDiff.JsonValue) :
  CdkDiff.simplified (CdkDiff.simplifyValue v) = true.
Proof. apply simplifyValue_simplified. Qed.

Lemma plain_members_filter (members : list (string * CdkDiff.JsonValue)) :
  forallb (λ kv, CdkDiff.definesProperty kv.1 && CdkDiff.plainKeys kv.2) members = true →
  filter (λ kv : string * CdkDiff.JsonValue, CdkDiff.definesProperty kv.1 = true)
         ((λ kv, (kv.1, CdkDiff.simplifyValue kv.2)) <$> members)
  = (λ kv, (kv.1, CdkDiff.simplifyValue kv.2)) <$> members.
Proof.
  intros Hplain%Forall_of_forallb. apply filter_all, Forall_fmap.
  eapply Forall_impl; [exact Hplain|].
  intros [k x] [Hk _]%andb_true_iff. exact Hk.
Qed.

(** X18: simplifying twice is simplifying once, for a value none of
    whose objects has a property named [__proto__]. *)
Theorem X18_simplifyValue_idempotent (v : CdkDiff.JsonValue) :
  CdkDiff.plainKeys v = true →
  CdkDiff.simplifyValue (CdkDiff.simplifyValue v) = CdkDiff.simplifyValue v.
Proof.
  induction v as [| |b|q|s|items IH|members IH] using JsonValue_nested_ind;
    try done; intros Hplain.
  - cbn [CdkDiff.simplifyValue]. case_bool_decide as Hzero; [done|].
    case_bool_decide as Hsmall; [|done].
    cbn [CdkDiff.simplifyValue]. rewrite length_fmap.
    rewrite bool_decide_eq_false_2, bool_decide_eq_true_2 by done.
    f_equal. rewrite <- list_fmap_compose. apply Forall_fmap_ext_1.
    cbn [CdkDiff.plainKeys] in Hplain. apply Forall_of_forallb in Hplain.
    rewrite Forall_forall in IH, Hplain. apply Forall_forall.
    intros x Hx. apply IH; [done|]. by apply Hplain.
  - cbn [CdkDiff.plainKeys] in Hplain.
    cbn [CdkDiff.simplifyValue]. case_bool_decide as Hzero; [done|].
    case_bool_decide as Hsmall; [|done].
    rewrite (plain_members_filter members Hplain).
    cbn [CdkDiff.simplifyValue]. rewrite length_fmap.
    rewrite bool_decide_eq_false_2, bool_decide_eq_true_2 by done.
    f_equal.
    assert ((λ kv : string * CdkDiff.JsonValue, (kv.1, CdkDiff.simplifyValue kv.2))
              <$> ((λ kv, (kv.1, CdkDiff.simplifyValue kv.2)) <$> members)
            = (λ kv, (kv.1, CdkDiff.simplifyValue kv.2)) <$> members) as ->.
    { rewrite <- list_fmap_compose. apply Forall_fmap_ext_1.
      apply Forall_of_forallb in Hplain.
      rewrite Forall_forall in IH, Hplain. apply Forall_forall.
      intros [k x] Hx. cbn. f_equal. apply (IH _ Hx).
      pose proof (Hplain _ Hx) as Hkx. apply andb_true_iff in Hkx as [_ Hkx].
      exact Hkx. }
    apply plain_members_filter, Hplain.
Qed.

Lemma X18_simplifyValue_idempotent_witness :
  CdkDiff.simplifyValue
    (CdkDiff.simplifyValue
       (CdkDiff.JObject [ ("Tags", CdkDiff.JArray [CdkDiff.JNull; CdkDiff.JString "a"]);
                          ("Ports", CdkDiff.JArray (CdkDiff.JString <$> ["22"; "80"; "443"; "8080"])) ]))
  = CdkDiff.simplifyValue
      (CdkDiff.JObject [ ("Tags", CdkDiff.JArray [CdkDiff.JNull; CdkDiff.JString "a"]);
                         ("Ports", CdkDiff.JArray (CdkDiff.JString <$> ["22"; "80"; "443"; "8080"])) ]).
Proof.
  apply (X18_simplifyValue_idempotent
           (CdkDiff.JObject [ ("Tags", CdkDiff.JArray [CdkDiff.JNull; CdkDiff.JString "a"]);
                              ("Ports", CdkDiff.JArray (CdkDiff.JString <$> ["22"; "80"; "443"; "8080"])) ])).
  reflexivity.
Defined.

(** An object with the property [__proto__] loses it, and what is left
    may be an empty object, which a second pass turns into a text. *)
Example simplifyValue_proto :
  CdkDiff.simplifyValue (CdkDiff.JObject [ ("__proto__", CdkDiff.JNumber 1) ])
  = CdkDiff.JObject []
  ∧ CdkDiff.simplifyValue (CdkDiff.JObject []) = CdkDiff.JString "{}".
Proof. split; reflexivity. Qed.

(** ** The result of one stack *)

Lemma resources_fold (l : list (string * CdkDiff.ResourceDifference))
    (acc : CdkDiff.StackDiffResult) :
  CdkDiff.resources (foldl CdkDiff.resourceStep acc l)
  = CdkDiff.resources acc ++ (CdkDiff.resourceDiff <$> l).
Proof.
  revert acc. induction l as [|e l IH]; intros acc; cbn [foldl fmap list_fmap].
  - by rewrite app_nil_r.
  - rewrite IH. cbn [CdkDiff.resourceStep CdkDiff.resources].
    by rewrite <- app_assoc.
Qed.

Lemma stackResult_resources stackName diff :
  CdkDiff.resources (CdkDiff.stackResult stackName diff)
  = CdkDiff.resourceDiff <$> default [] (CdkDiff.diffs diff).
Proof.
  unfold CdkDiff.stackResult. cbn [CdkDiff.resources].
  by rewrite resources_fold.
Qed.

Lemma withAction_snoc act (rs : list CdkDiff.ResourceDiff) r :
  CdkDiff.withAction act (rs ++ [r])
  = CdkDiff.withAction act rs + (if decide (CdkDiff.action r = act) then 1 else 0).
Proof.
  unfold CdkDiff.withAction. rewrite filter_app, length_app. f_equal.
  rewrite filter_cons, filter_nil. by destruct (decide (CdkDiff.action r = act)).
Qed.

Lemma resourceStep_countsAgree acc e :
  CdkDiff.countsAgree acc → CdkDiff.countsAgree (CdkDiff.resourceStep acc e).
Proof.
  intros (Ha & Hu & Hr & Hp & Hsum). unfold CdkDiff.countsAgree.
  cbn [CdkDiff.resourceStep CdkDiff.resources CdkDiff.summary].
  rewrite !withAction_snoc, filter_app, !length_app, filter_cons, filter_nil.
  cbn [CdkDiff.resourceDiff CdkDiff.action CdkDiff.willReplace].
  unfold CdkDiff.countReplacement, CdkDiff.count, CdkDiff.resourceAction.
  destruct (CdkDiff.replaces e.2), (CdkDiff.isAddition e.2), (CdkDiff.isRemoval e.2);
    cbn [fst snd CdkDiff.additions CdkDiff.updates CdkDiff.removals CdkDiff.replacements];
    repeat (case_decide; try done); cbn [length]; repeat split; lia.
Qed.

Lemma stackResult_countsAgree stackName diff :
  CdkDiff.countsAgree (CdkDiff.stackResult stackName diff).
Proof.
  unfold CdkDiff.stackResult.
  match goal with
  | |- context [foldl CdkDiff.resourceStep ?fresh ?l] =>
      assert (CdkDiff.countsAgree (foldl CdkDiff.resourceStep fresh l)) as Hfold
  end.
  { apply foldl_invariant.
    - by repeat split.
    - intros acc e. apply resourceStep_countsAgree. }
  exact Hfold.
Qed.

(** X19: the summary of a stack counts its reported resources: the
    additions, updates and removals are the resources with that action and
    add up to all of them, the replacements are the resources flagged as
    replaced, there is one resource per resource diff, in order, and the
    stack has differences exactly when it has a resource; IAM and security
    group changes do not count. *)
Theorem X19_summary_counts_resources (stackName : string) (diff : CdkDiff.TemplateDiff) :
  let r := CdkDiff.stackResult stackName diff in
  CdkDiff.countsAgree r
  ∧ CdkDiff.logicalId <$> CdkDiff.resources r = (default [] (CdkDiff.diffs diff)).*1
  ∧ (CdkDiff.hasDifferences r = true ↔ CdkDiff.resources r ≠ []).
Proof.
  intros r. pose proof (stackResult_countsAgree stackName diff) as Hcounts.
  split; [exact Hcounts|]. split.
  - unfold r. rewrite stackResult_resources, <- list_fmap_compose. done.
  - destruct Hcounts as (_ & _ & _ & _ & Hsum). fold r in Hsum.
    assert (CdkDiff.hasDifferences r
            = bool_decide (0 < CdkDiff.additions (CdkDiff.summary r))
              || bool_decide (0 < CdkDiff.updates (CdkDiff.summary r))
              || bool_decide (0 < CdkDiff.removals (CdkDiff.summary r))) as -> by done.
    rewrite !orb_true_iff, !bool_decide_eq_true.
    destruct (CdkDiff.resources r) as [|x xs]; cbn [length] in Hsum.
    + split; [lia|done].
    + split; [done|lia].
Qed.

Lemma orElse_not_empty (o : option string) (d : string) :
  d ≠ EmptyString → orElse o d ≠ EmptyString.
Proof.
  intros Hd. destruct o as [s|]; cbn; [|done]. by case_bool_decide.
Qed.

Lemma propertyDiff_wellFormed (entry : string * CdkDiff.PropertyDifference) :
  CdkDiff.wellFormedProperty (CdkDiff.propertyDiff entry).
Proof.
  repeat split; cbn [CdkDiff.propertyDiff CdkDiff.changeImpact CdkDiff.oldValue
                       CdkDiff.newValue].
  - by apply orElse_not_empty.
  - apply simplifyValue_simplified.
  - apply simplifyValue_simplified.
Qed.

Lemma propertyDiff_impact (entry : string * CdkDiff.PropertyDifference) :
  CdkDiff.pd_changeImpact entry.2 ≠ Some "WILL_REPLACE" →
  CdkDiff.changeImpact (CdkDiff.propertyDiff entry) ≠ "WILL_REPLACE".
Proof.
  intros Hno. cbn [CdkDiff.propertyDiff CdkDiff.changeImpact].
  destruct (CdkDiff.pd_changeImpact entry.2) as [s|]; cbn; [|done].
  case_bool_decide; [done|]. congruence.
Qed.

Lemma replaces_false (resDiff : CdkDiff.ResourceDifference) :
  CdkDiff.replaces resDiff = false →
  Forall (λ kv : string * CdkDiff.PropertyDifference,
            CdkDiff.pd_changeImpact kv.2 ≠ Some "WILL_REPLACE")
         (default [] (CdkDiff.propertyDiffs resDiff)).
Proof.
  unfold CdkDiff.replaces.
  induction (default [] (CdkDiff.propertyDiffs resDiff)) as [|kv l IH];
    [by constructor|].
  cbn [existsb]. intros [Hkv Hl]%orb_false_iff. constructor; [|by apply IH].
  by apply bool_decide_eq_false in Hkv.
Qed.

Lemma resourceDiff_wellFormed (entry : string * CdkDiff.ResourceDifference) :
  CdkDiff.wellFormedResource (CdkDiff.resourceDiff entry).
Proof.
  unfold CdkDiff.wellFormedResource.
  cbn [CdkDiff.resourceDiff CdkDiff.resourceType CdkDiff.action CdkDiff.properties
         CdkDiff.willReplace].
  split; [|split; [|split]].
  - by apply orElse_not_empty, orElse_not_empty.
  - unfold CdkDiff.resourceAction.
    destruct (CdkDiff.isAddition entry.2), (CdkDiff.isRemoval entry.2);
      rewrite !elem_of_cons; auto.
  - apply Forall_fmap, Forall_forall. intros kv _. apply propertyDiff_wellFormed.
  - intros Hno%replaces_false. apply Forall_fmap, Forall_filter_keeps.
    eapply Forall_impl; [exact Hno|]. intros kv. apply propertyDiff_impact.
Qed.

(** X20: every resource reported for a stack is well formed: it has a
    type and one of the three actions, each listed property is a changed
    one with an impact and with simplified values, and a resource that is
    not flagged as replaced lists no property that replaces it. *)
Theorem X20_reported_resources_well_formed (stackName : string)
    (diff : CdkDiff.TemplateDiff) :
  Forall CdkDiff.wellFormedResource
         (CdkDiff.resources (CdkDiff.stackResult stackName diff)).
Proof.
  rewrite stackResult_resources. apply Forall_fmap, Forall_forall.
  intros entry _. apply resourceDiff_wellFormed.
Qed.

(** ** The run *)

Lemma stackResult_stackName stackName diff :
  CdkDiff.stackName (CdkDiff.stackResult stackName diff) = stackName.
Proof.
  unfold CdkDiff.stackResult. cbn [CdkDiff.stackName].
  apply (foldl_invariant (λ acc, CdkDiff.stackName acc = stackName)); done.
Qed.

(** X21: the report of [runDiff] is consistent: it succeeds exactly when
    it carries no error, a failed run reports no stack and no drift, and
    drift results are present exactly when the run succeeded with drift
    detection enabled. *)
Theorem X21_report_consistent (sys : CdkDiff.System) (config : CdkDiff.Config) :
  let out := CdkDiff.runDiff sys config in
  CdkDiff.timestamp out = CdkDiff.now sys
  ∧ (CdkDiff.success out = true ↔ CdkDiff.error out = None)
  ∧ (CdkDiff.success out = false → CdkDiff.stacks out = [] ∧ CdkDiff.drift out = None)
  ∧ (is_Some (CdkDiff.drift out)
     ↔ CdkDiff.success out = true ∧ CdkDiff.enableDrift config = Some true).
Proof.
  intros out. unfold out, CdkDiff.runDiff.
  destruct (CdkDiff.newToolkit sys _) as [m|toolkit].
  { cbn. repeat split; try done. by intros [? ?]. }
  destruct (CdkDiff.fromAssemblyDirectory toolkit _) as [m|cx].
  { cbn. repeat split; try done. by intros [? ?]. }
  destruct (CdkDiff.diff toolkit cx _) as [m|diffResults].
  { cbn. repeat split; try done. by intros [? ?]. }
  cbn [CdkDiff.timestamp CdkDiff.success CdkDiff.error CdkDiff.stacks CdkDiff.drift].
  split; [done|]. split; [done|]. split; [done|]. split.
  - intros Hsome. split; [done|].
    destruct (CdkDiff.enableDrift config) as [[|]|]; [done| |];
      by destruct Hsome.
  - intros [_ ->]. by destruct (CdkDiff.detectDrift toolkit cx _).
Qed.

Lemma X21_report_consistent_witness :
  CdkDiff.success (CdkDiff.runDiff CdkDiff.exampleSystem CdkDiff.defaultConfig) = true
  ∧ is_Some (CdkDiff.drift (CdkDiff.runDiff CdkDiff.exampleSystem CdkDiff.defaultConfig)).
Proof.
  destruct (X21_report_consistent CdkDiff.exampleSystem CdkDiff.defaultConfig)
    as (_ & _ & _ & Hdrift).
  split; [reflexivity|]. apply Hdrift. split; reflexivity.
Defined.

(** X22: a failure of drift detection does not fail the run: once the
    toolkit has loaded the assembly and answered the diff, the run
    succeeds and reports one result per diffed stack, in order; if drift
    detection is enabled and throws, the drift results are the empty
    list. *)
Theorem X22_drift_failure_tolerated (sys : CdkDiff.System) (config : CdkDiff.Config)
    (toolkit : CdkDiff.Toolkit) (cx : CdkDiff.Assembly toolkit)
    (diffResults : list (string * CdkDiff.TemplateDiff)) :
  CdkDiff.newToolkit sys (if truthy (CdkDiff.profile config)
                          then CdkDiff.profile config else None)
    = CdkDiff.Returns toolkit →
  CdkDiff.fromAssemblyDirectory toolkit (CdkDiff.assemblyDir config)
    = CdkDiff.Returns cx →
  CdkDiff.diff toolkit cx (CdkDiff.stackSelector config)
    = CdkDiff.Returns diffResults →
  let out := CdkDiff.runDiff sys config in
  CdkDiff.success out = true
  ∧ CdkDiff.error out = None
  ∧ CdkDiff.stackName <$> CdkDiff.stacks out = diffResults.*1
  ∧ (∀ message,
       CdkDiff.enableDrift config = Some true →
       CdkDiff.detectDrift toolkit cx (CdkDiff.stackSelector config)
         = CdkDiff.Throws message →
       CdkDiff.drift out = Some []).
Proof.
  intros Htoolkit Hcx Hdiff out. unfold out, CdkDiff.runDiff.
  rewrite Htoolkit, Hcx, Hdiff.
  cbn [CdkDiff.success CdkDiff.error CdkDiff.stacks CdkDiff.drift].
  repeat split.
  - rewrite <- list_fmap_compose. apply Forall_fmap_ext_1, Forall_forall.
    intros [stackName diff] _. apply stackResult_stackName.
  - intros message -> ->. done.
Qed.

Lemma X22_drift_failure_tolerated_witness :
  CdkDiff.success (CdkDiff.runDiff CdkDiff.exampleSystem CdkDiff.defaultConfig) = true
  ∧ CdkDiff.drift (CdkDiff.runDiff CdkDiff.exampleSystem CdkDiff.defaultConfig) = Some [].
Proof.
  destruct (X22_drift_failure_tolerated CdkDiff.exampleSystem CdkDiff.defaultConfig
              CdkDiff.exampleToolkit "cdk.out" [ ("Net", CdkDiff.exampleDiff) ]
              eq_refl eq_refl eq_refl) as (Hsuccess & _ & _ & Hdrift).
  split; [exact Hsuccess|].
  apply (Hdrift "drift detection is not available"); reflexivity.
Defined.

(** ** The command line *)

Lemma parseArgs_no_flag (args : list string) (configPath : string) :
  "--config" ∉ args → CdkDiff.parseArgs args configPath = configPath.
Proof.
  revert configPath. induction args as [|a rest IH]; intros configPath Hno; [done|].
  apply not_elem_of_cons in Hno as [Ha Hrest].
  cbn [CdkDiff.parseArgs]. destruct rest as [|v rest']; [done|].
  rewrite (bool_decide_eq_false_2 (a = "--config")) by done.
  cbn [andb]. by apply IH.
Qed.

(** X23: the path of the configuration is the argument that follows
    [--config]: with no [--config] among the arguments it is the path
    given by default, and with one [--config], followed by a path that is
    not empty, it is that path. *)
Theorem X23_config_path (pre post : list string) (path configPath : string) :
  "--config" ∉ pre → "--config" ∉ post → path ≠ EmptyString →
  CdkDiff.parseArgs (pre ++ post) configPath = configPath
  ∧ CdkDiff.parseArgs (pre ++ "--config" :: path :: post) configPath = path.
Proof.
  intros Hpre Hpost Hpath. split.
  { apply parseArgs_no_flag. rewrite elem_of_app. tauto. }
  induction pre as [|a pre IH].
  - cbn [app CdkDiff.parseArgs].
    rewrite bool_decide_eq_true_2, (bool_decide_eq_false_2 (path = EmptyString)) by done.
    cbn [andb negb]. by apply parseArgs_no_flag.
  - apply not_elem_of_cons in Hpre as [Ha Hpre].
    change ((a :: pre) ++ "--config" :: path :: post)
      with (a :: (pre ++ "--config" :: path :: post)).
    cbn [CdkDiff.parseArgs].
    destruct (pre ++ "--config" :: path :: post) as [|v rest'] eqn:Hrest.
    { by destruct pre. }
    rewrite (bool_decide_eq_false_2 (a = "--config")) by done.
    cbn [andb]. by apply IH.
Qed.

Lemma X23_config_path_witness :
  CdkDiff.parseArgs ["--verbose"; "--config"; "ci.json"; "--quiet"] "cdk-diff-config.json"
  = "ci.json".
Proof.
  apply (X23_config_path ["--verbose"] ["--quiet"] "ci.json" "cdk-diff-config.json").
  - apply (bool_decide_unpack _). reflexivity.
  - apply (bool_decide_unpack _). reflexivity.
  - discriminate.
Defined.

(** X24: the exit code of the script is 0 or 1, and it is 0 exactly when
    a report was printed that says the run succeeded; nothing is printed
    exactly when the configuration file is there and cannot be parsed. *)
Theorem X24_exit_code (sys : CdkDiff.System) (args : list string) :
  let e := CdkDiff.main sys args in
  (CdkDiff.exitCode e = 0 ∨ CdkDiff.exitCode e = 1)
  ∧ (CdkDiff.exitCode e = 0
     ↔ ∃ out, CdkDiff.stdout e = Some out ∧ CdkDiff.success out = true)
  ∧ (CdkDiff.stdout e = None
     ↔ ∃ message,
         CdkDiff.configFile sys (CdkDiff.parseArgs args "cdk-diff-config.json")
         = Some (ParseError message)).
Proof.
  assert (∀ result,
            (CdkDiff.exitCode (CdkDiff.finish result) = 0
             ∨ CdkDiff.exitCode (CdkDiff.finish result) = 1)
            ∧ (CdkDiff.exitCode (CdkDiff.finish result) = 0
               ↔ ∃ out, CdkDiff.stdout (CdkDiff.finish result) = Some out
                        ∧ CdkDiff.success out = true)) as Hfinish.
  { intros result. unfold CdkDiff.finish. cbn [CdkDiff.exitCode CdkDiff.stdout].
    destruct (CdkDiff.success result) eqn:Hs.
    - split; [by left|]. split; [|done]. intros _. by exists result.
    - split; [by right|]. split; [done|]. intros (out & [= <-] & Hout). congruence. }
  intros e. unfold e, CdkDiff.main.
  destruct (CdkDiff.configFile sys _) as [[m|config]|].
  - cbn [CdkDiff.exitCode CdkDiff.stdout]. split; [by right|]. split.
    + split; [done|]. by intros (out & ? & _).
    + split; [|done]. intros _. by exists m.
  - destruct (Hfinish (CdkDiff.runDiff sys config)) as [H1 H2].
    split; [exact H1|]. split; [exact H2|]. split; [done|]. by intros (m & ?).
  - destruct (Hfinish (CdkDiff.runDiff sys CdkDiff.defaultConfig)) as [H1 H2].
    split; [exact H1|]. split; [exact H2|]. split; [done|]. by intros (m & ?).
Qed.
